(** * Response normalisation and the example catalogue

    A shallow embedding of [backend/app/services/ai_service.py]
    ([AIService._parse_response]) and of
    [backend/app/services/example_service.py] ([ExampleService]), with the
    part of Python's [str], [dict] and [json] behaviour those functions rely
    on.

    Conventions.
    - A Python [str] is a sequence of Unicode code points: [str := list N].
      ASCII literals of the source are written [lit "..."].
    - A Python [dict] keeps its keys unique and iterates in insertion order:
      it is an association list, updated in place when the key exists and
      extended at the end otherwise.
    - A decoded JSON document is a value of [json]; exceptions are values of
      [exn] carried by [result].
    - Logging calls only produce log lines; the attribute accesses they
      perform (and that may raise) are kept, the output is not. *)

From Stdlib Require Import List NArith ZArith Bool Ascii String Lia.
Import ListNotations.

(* ================================================================== *)
(** ** Python [str] *)

Module Str.

Definition str := list N.

(** The code points of an ASCII literal of the source. *)
Definition lit (s : string) : str :=
  List.map N_of_ascii (list_ascii_of_string s).

Definition eqb (a b : str) : bool :=
  if list_eq_dec N.eq_dec a b then true else false.

(** [Py_UNICODE_ISSPACE]: the characters [str.strip()] removes. *)
Definition is_space (c : N) : bool :=
  ((9 <=? c) && (c <=? 13) || (28 <=? c) && (c <=? 32)
   || (c =? 133) || (c =? 160) || (c =? 5760)
   || (8192 <=? c) && (c <=? 8202)
   || (c =? 8232) || (c =? 8233) || (c =? 8239) || (c =? 8287)
   || (c =? 12288))%N.

Fixpoint lstrip (s : str) : str :=
  match s with
  | c :: s' => if is_space c then lstrip s' else s
  | [] => []
  end.

Definition rstrip (s : str) : str := rev (lstrip (rev s)).

(** [s.strip()] *)
Definition strip (s : str) : str := rstrip (lstrip s).

(** [strip_prefix p s] is [Some r] exactly when [s = p ++ r]. *)
Fixpoint strip_prefix (p s : str) : option str :=
  match p with
  | [] => Some s
  | a :: p' =>
      match s with
      | b :: s' => if N.eqb a b then strip_prefix p' s' else None
      | [] => None
      end
  end.

(** [s.startswith(p)] *)
Definition startswith (p s : str) : bool :=
  match strip_prefix p s with Some _ => true | None => false end.

(** [s.endswith(p)] *)
Definition endswith (p s : str) : bool := startswith (rev p) (rev s).

(** [s[n:]] for a literal [n >= 0] *)
Definition slice_from (n : nat) (s : str) : str := skipn n s.

(** [s[:-n]] for a literal [n > 0] *)
Definition slice_to_minus (n : nat) (s : str) : str :=
  firstn (List.length s - n) s.

End Str.
Import Str.

(* ================================================================== *)
(** ** Python [dict] with [str] keys *)

Module Dict.
Section Dict.
Variable V : Type.

Definition dict := list (str * V).

Definition empty : dict := [].

(** [d.get(k)], [None] when the key is absent *)
Fixpoint get (k : str) (d : dict) : option V :=
  match d with
  | [] => None
  | (k', v) :: d' => if Str.eqb k' k then Some v else get k d'
  end.

(** [k in d] *)
Definition mem (k : str) (d : dict) : bool :=
  match get k d with Some _ => true | None => false end.

(** [d[k] = v]: the value is replaced where the key already sits, a new
    key goes last. *)
Fixpoint set (k : str) (v : V) (d : dict) : dict :=
  match d with
  | [] => [(k, v)]
  | (k', v') :: d' =>
      if Str.eqb k' k then (k', v) :: d' else (k', v') :: set k v d'
  end.

(** [d.keys()], in iteration order *)
Definition keys (d : dict) : list str := List.map fst d.

(** [d.items()], in iteration order *)
Definition items (d : dict) : list (str * V) := d.

End Dict.
End Dict.

Arguments Dict.empty {V}.
Arguments Dict.get {V} k d.
Arguments Dict.mem {V} k d.
Arguments Dict.set {V} k v d.
Arguments Dict.keys {V} d.
Arguments Dict.items {V} d.

(* ================================================================== *)
(** ** Exceptions *)

(** The messages [ValueError] is raised with: two in [_parse_response]
    (each followed in the source by the text of the exception it replaces)
    and one in [get_example]. *)
Inductive value_error_message : Type :=
| Invalid_JSON_response_from_AI
| Failed_to_parse_AI_response
| Example_not_found.

Inductive exn : Type :=
| JSONDecodeError
| AttributeError
| KeyError
| ValueError (msg : value_error_message).

Inductive result (A : Type) : Type :=
| Ok (a : A)
| Raise (e : exn).
Arguments Ok {A} a.
Arguments Raise {A} e.

Definition bind {A B} (m : result A) (f : A -> result B) : result B :=
  match m with
  | Ok a => f a
  | Raise e => Raise e
  end.

Notation "x <- m ;; k" := (bind m (fun x => k))
  (at level 61, m at next level, right associativity).

(* ================================================================== *)
(** ** Decoded JSON values *)

(** What [json.loads] builds: [None], [bool], [int], [float], [str], [list]
    and [dict].  A [float] is kept as the text it was read from. *)
#[warnings="-register-all"]
Inductive json : Type :=
| JNull
| JBool (b : bool)
| JInt (z : Z)
| JFloat (lexeme : str)
| JString (s : str)
| JArray (l : list json)
| JObject (m : list (str * json)).

(** A [dict] built by the decoder has unique keys, at every depth. *)
#[warnings="-register-all"]
Inductive wf_json : json -> Prop :=
| wf_JNull : wf_json JNull
| wf_JBool b : wf_json (JBool b)
| wf_JInt z : wf_json (JInt z)
| wf_JFloat x : wf_json (JFloat x)
| wf_JString s : wf_json (JString s)
| wf_JArray l : Forall wf_json l -> wf_json (JArray l)
| wf_JObject m :
    NoDup (Dict.keys m) ->
    Forall (fun kv => wf_json (snd kv)) m ->
    wf_json (JObject m).

(* ================================================================== *)
(** ** [json.loads]

    The decoder of the standard library ([json.decoder], [json.scanner] and
    their C accelerator), for a [str] argument and default options: strict
    strings, [NaN]/[Infinity] accepted, objects built as [dict].  Resource
    limits of the interpreter (recursion depth, the digit limit of [int])
    are not part of the model. *)

Module Json.

Open Scope N_scope.

(** Outcome of a scanner: a value and the text after it, a syntax error, or
    the recursion budget of the model used up (which [loads] never meets). *)
Inductive parse (A : Type) : Type :=
| Parsed (a : A) (rest : str)
| Malformed
| NoFuel.
Arguments Parsed {A} a rest.
Arguments Malformed {A}.
Arguments NoFuel {A}.

(** [WHITESPACE = re.compile(r'[ \t\n\r]*')] *)
Definition is_ws (c : N) : bool :=
  (c =? 32) || (c =? 9) || (c =? 10) || (c =? 13).

Fixpoint skip_ws (s : str) : str :=
  match s with
  | c :: s' => if is_ws c then skip_ws s' else s
  | [] => []
  end.

Definition is_digit (c : N) : bool := (48 <=? c) && (c <=? 57).

Definition hex_digit (c : N) : option N :=
  if is_digit c then Some (c - 48)
  else if (97 <=? c) && (c <=? 102) then Some (c - 87)
  else if (65 <=? c) && (c <=? 70) then Some (c - 55)
  else None.

Definition hex4 (a b c d : N) : option N :=
  match hex_digit a, hex_digit b, hex_digit c, hex_digit d with
  | Some x, Some y, Some z, Some w => Some (((x * 16 + y) * 16 + z) * 16 + w)
  | _, _, _, _ => None
  end.

(** The one-character escapes: quote, backslash, slash, b, f, n, r, t. *)
Definition unescape (c : N) : option N :=
  if c =? 34 then Some 34
  else if c =? 92 then Some 92
  else if c =? 47 then Some 47
  else if c =? 98 then Some 8
  else if c =? 102 then Some 12
  else if c =? 110 then Some 10
  else if c =? 114 then Some 13
  else if c =? 116 then Some 9
  else None.

Definition is_high_surrogate (c : N) : bool := (55296 <=? c) && (c <=? 56319).
Definition is_low_surrogate (c : N) : bool := (56320 <=? c) && (c <=? 57343).
Definition join_surrogates (hi lo : N) : N :=
  65536 + ((hi - 55296) * 1024 + (lo - 56320)).

(** [scanstring], from the character after the opening quote; [acc] holds
    the decoded characters so far, last first.  A control character, an
    unknown escape, a bad [\uXXXX] or the end of the text is an error; a high
    surrogate escape directly followed by a low surrogate escape is one
    character. *)
Fixpoint scanstring (s : str) (acc : str) : option (str * str) :=
  match s with
  | [] => None
  | c :: s1 =>
      if c =? 34 then Some (rev acc, s1)
      else if c =? 92 then
        match s1 with
        | [] => None
        | e :: s2 =>
            if e =? 117 then
              match s2 with
              | h1 :: h2 :: h3 :: h4 :: s3 =>
                  match hex4 h1 h2 h3 h4 with
                  | None => None
                  | Some u =>
                      if is_high_surrogate u then
                        match s3 with
                        | b :: u' :: g1 :: g2 :: g3 :: g4 :: s4 =>
                            if (b =? 92) && (u' =? 117) then
                              match hex4 g1 g2 g3 g4 with
                              | None => None
                              | Some u2 =>
                                  if is_low_surrogate u2
                                  then scanstring s4 (join_surrogates u u2 :: acc)
                                  else scanstring s3 (u :: acc)
                              end
                            else scanstring s3 (u :: acc)
                        | _ => scanstring s3 (u :: acc)
                        end
                      else scanstring s3 (u :: acc)
                  end
              | _ => None
              end
            else
              match unescape e with
              | Some x => scanstring s2 (x :: acc)
              | None => None
              end
        end
      else if c <=? 31 then None
      else scanstring s1 (c :: acc)
  end.

(** The longest run of ASCII digits at the front, and what follows. *)
Fixpoint span_digits (s : str) : str * str :=
  match s with
  | c :: s' =>
      if is_digit c
      then let (ds, r) := span_digits s' in (c :: ds, r)
      else ([], s)
  | [] => ([], [])
  end.

Definition digits_value (ds : str) : Z :=
  fold_left (fun acc d => (acc * 10 + Z.of_N (d - 48))%Z) ds 0%Z.

(** A single zero, or a digit from one to nine followed by any digits:
    the digits and the rest. *)
Definition scan_natural (s : str) : option (str * str) :=
  match s with
  | d :: s2 =>
      if d =? 48 then Some ([d], s2)
      else if is_digit d
           then let (ds, r) := span_digits s2 in Some (d :: ds, r)
           else None
  | [] => None
  end.

(** The integer part: an optional minus sign, then [scan_natural].  Gives
    the sign, the digits and the rest. *)
Definition scan_int (s : str) : option (bool * str * str) :=
  match s with
  | c :: s' =>
      if c =? 45 then
        match scan_natural s' with
        | Some (ds, r) => Some (true, ds, r)
        | None => None
        end
      else
        match scan_natural s with
        | Some (ds, r) => Some (false, ds, r)
        | None => None
        end
  | [] => None
  end.

(** The optional fraction: a dot followed by at least one digit. *)
Definition scan_frac (s : str) : str * str :=
  match s with
  | p :: d :: s' =>
      if (p =? 46) && is_digit d
      then let (ds, r) := span_digits s' in (p :: d :: ds, r)
      else ([], s)
  | _ => ([], s)
  end.

(** The optional exponent: e or E, an optional sign, at least one digit;
    without a digit the exponent is left unread. *)
Definition scan_exp (s : str) : str * str :=
  match s with
  | e :: s1 =>
      if (e =? 101) || (e =? 69) then
        let (sg, s2) :=
          match s1 with
          | c :: s' => if (c =? 43) || (c =? 45) then ([c], s') else ([], s1)
          | [] => ([], s1)
          end in
        match span_digits s2 with
        | ([], _) => ([], s)
        | (ds, r) => (e :: sg ++ ds, r)
        end
      else ([], s)
  | [] => ([], s)
  end.

(** [_match_number]: an [int] without fraction and exponent, a [float]
    otherwise. *)
Definition match_number (s : str) : parse json :=
  match scan_int s with
  | None => Malformed
  | Some (neg, ds, r1) =>
      let (fr, r2) := scan_frac r1 in
      let (ex, r3) := scan_exp r2 in
      match fr, ex with
      | [], [] =>
          Parsed (JInt (if neg then - digits_value ds else digits_value ds)%Z) r3
      | _, _ =>
          Parsed (JFloat ((if neg then [45] else []) ++ ds ++ fr ++ ex)) r3
      end
  end.

(** A named constant at the front of [s], if any. *)
Definition match_constant (s : str) : option (json * str) :=
  match strip_prefix (lit "null") s with
  | Some r => Some (JNull, r)
  | None =>
  match strip_prefix (lit "true") s with
  | Some r => Some (JBool true, r)
  | None =>
  match strip_prefix (lit "false") s with
  | Some r => Some (JBool false, r)
  | None =>
  match strip_prefix (lit "NaN") s with
  | Some r => Some (JFloat (lit "NaN"), r)
  | None =>
  match strip_prefix (lit "Infinity") s with
  | Some r => Some (JFloat (lit "Infinity"), r)
  | None =>
  match strip_prefix (lit "-Infinity") s with
  | Some r => Some (JFloat (lit "-Infinity"), r)
  | None => None
  end end end end end end.

(** [scan_once] with [_parse_object] and [_parse_array].  [parse_object]
    and [parse_array] start at the first key, resp. the first element, of a
    container that is not empty. *)
Fixpoint scan_once (fuel : nat) (s : str) {struct fuel} : parse json :=
  match fuel with
  | O => NoFuel
  | S n =>
      match s with
      | [] => Malformed
      | c :: s1 =>
          if c =? 34 then
            match scanstring s1 [] with
            | Some (x, r) => Parsed (JString x) r
            | None => Malformed
            end
          else if c =? 123 then
            match skip_ws s1 with
            | [] => Malformed
            | c2 :: s2 =>
                if c2 =? 125 then Parsed (JObject Dict.empty) s2
                else parse_object n (c2 :: s2) Dict.empty
            end
          else if c =? 91 then
            match skip_ws s1 with
            | [] => Malformed
            | c2 :: s2 =>
                if c2 =? 93 then Parsed (JArray []) s2
                else parse_array n (c2 :: s2) []
            end
          else
            match match_constant s with
            | Some (v, r) => Parsed v r
            | None => match_number s
            end
      end
  end

with parse_object (fuel : nat) (s : str) (acc : Dict.dict json)
       {struct fuel} : parse json :=
  match fuel with
  | O => NoFuel
  | S n =>
      match s with
      | [] => Malformed
      | c :: s1 =>
          if c =? 34 then
            match scanstring s1 [] with
            | None => Malformed
            | Some (key, s2) =>
                match skip_ws s2 with
                | [] => Malformed
                | c3 :: s3 =>
                    if c3 =? 58 then
                      match scan_once n (skip_ws s3) with
                      | Parsed v s4 =>
                          let acc' := Dict.set key v acc in
                          match skip_ws s4 with
                          | [] => Malformed
                          | c5 :: s5 =>
                              if c5 =? 125 then Parsed (JObject acc') s5
                              else if c5 =? 44
                                   then parse_object n (skip_ws s5) acc'
                                   else Malformed
                          end
                      | Malformed => Malformed
                      | NoFuel => NoFuel
                      end
                    else Malformed
                end
            end
          else Malformed
      end
  end

with parse_array (fuel : nat) (s : str) (acc : list json)
       {struct fuel} : parse json :=
  match fuel with
  | O => NoFuel
  | S n =>
      match scan_once n s with
      | Parsed v s1 =>
          match skip_ws s1 with
          | [] => Malformed
          | c2 :: s2 =>
              if c2 =? 93 then Parsed (JArray (rev (v :: acc))) s2
              else if c2 =? 44
                   then parse_array n (skip_ws s2) (v :: acc)
                   else Malformed
          end
      | Malformed => Malformed
      | NoFuel => NoFuel
      end
  end.

(** Recursion budget: two levels per character are enough for every text
    (lemma [loads_never_out_of_fuel]). *)
Definition loads_fuel (s : str) : nat := 2 * List.length s + 1.

(** [json.loads(s)]: a leading byte-order mark is refused, white space
    around the one document is skipped, anything after it is an error. *)
Definition loads (s : str) : result json :=
  if startswith [65279] s then Raise JSONDecodeError
  else
    match scan_once (loads_fuel s) (skip_ws s) with
    | Parsed v r =>
        match skip_ws r with
        | [] => Ok v
        | _ :: _ => Raise JSONDecodeError
        end
    | Malformed => Raise JSONDecodeError
    | NoFuel => Raise JSONDecodeError
    end.

Close Scope N_scope.

End Json.

(* ================================================================== *)
(** ** Attribute access on decoded values

    Of the values [json.loads] returns only a [dict] has [get], [keys] and
    [items]; on a [list], [str], [int], [float], [bool] or [None] the
    attribute lookup raises [AttributeError]. *)

Definition py_get (x : json) (k : str) (default : json) : result json :=
  match x with
  | JObject m =>
      Ok (match Dict.get k m with Some v => v | None => default end)
  | _ => Raise AttributeError
  end.

Definition py_keys (x : json) : result (list str) :=
  match x with
  | JObject m => Ok (Dict.keys m)
  | _ => Raise AttributeError
  end.

Definition py_items (x : json) : result (list (str * json)) :=
  match x with
  | JObject m => Ok (Dict.items m)
  | _ => Raise AttributeError
  end.

(** [d[k]] *)
Definition py_getitem {V} (d : Dict.dict V) (k : str) : result V :=
  match Dict.get k d with
  | Some v => Ok v
  | None => Raise KeyError
  end.

(* ================================================================== *)
(** ** [AnalysisResult] *)

(** Modelled from the spec: the class [AnalysisResult] of
    [app/models/domain.py], which is not among the sources.  The spec gives
    it the two fields [summary] and [files]; the constructor call of
    [_parse_response] stores the two objects it is given. *)
Record AnalysisResult : Type := {
  summary : json;
  files : Dict.dict json
}.

(* ================================================================== *)
(** ** [AIService._parse_response] *)

Module AIService.

Definition nl : str := [10%N].

(** Lines 305-312: the Markdown fence is taken off the stripped text. *)
Definition clean_response (response_text : str) : str :=
  let cleaned_text := strip response_text in
  let cleaned_text :=
    if startswith (lit "```json") cleaned_text
    then slice_from 7 cleaned_text else cleaned_text in
  let cleaned_text :=
    if startswith (lit "```") cleaned_text
    then slice_from 3 cleaned_text else cleaned_text in
  let cleaned_text :=
    if endswith (lit "```") cleaned_text
    then slice_to_minus 3 cleaned_text else cleaned_text in
  strip cleaned_text.

Definition App_jsx : str := lit "App.jsx".
Definition models_py : str := lit "models.py".
Definition main_py : str := lit "main.py".
Definition README_md : str := lit "README.md".

(** The list of line 337. *)
Definition react_names : list str :=
  [lit "App.jsx"; lit "App.tsx"; lit "app.jsx"; lit "app.tsx";
   lit "App.js"; lit "app.js"].

(** [key in [...]] *)
Definition is_react_name (key : str) : bool :=
  existsb (fun name => Str.eqb name key) react_names.

(** Line 353. *)
Definition App_jsx_placeholder : str :=
  lit "# App.jsx" ++ nl ++ lit "# File not generated by AI" ++ nl
  ++ lit "# Please check the AI response".

(** Lines 356-360. *)
Definition critical_files : Dict.dict str :=
  [ (lit "models.py",
     lit "# SQLAlchemy models" ++ nl ++ lit "# File not generated by AI");
    (lit "main.py",
     lit "# FastAPI application" ++ nl ++ lit "# File not generated by AI");
    (lit "README.md",
     lit "# README" ++ nl ++ lit "# File not generated by AI") ].

(** Lines 328-331: the received entries are copied one by one. *)
Definition copy_files (items : list (str * json)) : Dict.dict json :=
  fold_left (fun normalized_files kv => Dict.set (fst kv) (snd kv) normalized_files)
            items Dict.empty.

(** Lines 334-340: the first key, in iteration order, that is one of the
    React names; [None] when [react_file_found] stays false. *)
Definition find_react_file (normalized_files : Dict.dict json) : option str :=
  find is_react_name (Dict.keys normalized_files).

(** Lines 343-347. *)
Definition map_react_file (normalized_files : Dict.dict json)
  : result (Dict.dict json) :=
  match find_react_file normalized_files with
  | Some react_file_key =>
      if negb (Str.eqb react_file_key App_jsx) then
        if negb (Dict.mem App_jsx normalized_files) then
          v <- py_getitem normalized_files react_file_key ;;
          Ok (Dict.set App_jsx v normalized_files)
        else Ok normalized_files
      else Ok normalized_files
  | None => Ok normalized_files
  end.

(** Lines 351-353. *)
Definition ensure_App_jsx (normalized_files : Dict.dict json)
  : Dict.dict json :=
  if negb (Dict.mem App_jsx normalized_files)
  then Dict.set App_jsx (JString App_jsx_placeholder) normalized_files
  else normalized_files.

(** Lines 362-365. *)
Definition ensure_critical_files (normalized_files : Dict.dict json)
  : Dict.dict json :=
  fold_left
    (fun normalized_files entry =>
       let file_name := fst entry in
       let placeholder := snd entry in
       if negb (Dict.mem file_name normalized_files)
       then Dict.set file_name (JString placeholder) normalized_files
       else normalized_files)
    (Dict.items critical_files) normalized_files.

(** Lines 321-372, from the decoded document to the result. *)
Definition build_result (data : json) (description : str)
  : result AnalysisResult :=
  summary <- py_get data (lit "analysis_summary")
               (JString (lit "Generated application based on: " ++ description)) ;;
  files_dict <- py_get data (lit "generated_files") (JObject Dict.empty) ;;
  _ <- py_keys files_dict ;;
  items <- py_items files_dict ;;
  let normalized_files := copy_files items in
  normalized_files <- map_react_file normalized_files ;;
  let normalized_files := ensure_App_jsx normalized_files in
  let normalized_files := ensure_critical_files normalized_files in
  Ok {| summary := summary; files := normalized_files |}.

(** The body of the [try] statement. *)
Definition try_body (response_text description : str)
  : result AnalysisResult :=
  data <- Json.loads (clean_response response_text) ;;
  build_result data description.

(** [_parse_response]: the two [except] clauses turn a [JSONDecodeError],
    then any other exception, into a [ValueError]. *)
Definition _parse_response (response_text description : str)
  : result AnalysisResult :=
  match try_body response_text description with
  | Ok r => Ok r
  | Raise JSONDecodeError => Raise (ValueError Invalid_JSON_response_from_AI)
  | Raise _ => Raise (ValueError Failed_to_parse_AI_response)
  end.

End AIService.

(* ================================================================== *)
(** ** [ExampleService] *)

Module ExampleService.
Section Examples.

(** [file_text example file] is the text of the triple-quoted literal
    stored under [file] in the example [example] of [EXAMPLES] (twelve
    literals, lines 14-817 of the source).  Nothing below looks inside them. *)
Variable file_text : str -> str -> str.

Definition example_files (example_id : str) : Dict.dict json :=
  [ (lit "models.py", JString (file_text example_id (lit "models.py")));
    (lit "main.py", JString (file_text example_id (lit "main.py")));
    (lit "App.jsx", JString (file_text example_id (lit "App.jsx")));
    (lit "README.md", JString (file_text example_id (lit "README.md"))) ].

Definition EXAMPLES : Dict.dict AnalysisResult :=
  [ (lit "food-pantry",
     {| summary := JString (lit "A Food Pantry Management System for tracking inventory, donations, and distributions. The system helps organizations manage their food bank operations efficiently with features for item tracking, donor management, and distribution records.");
        files := example_files (lit "food-pantry") |});
    (lit "library",
     {| summary := JString (lit "A Library Book Tracking System for managing books, members, and loans. The system enables librarians to track book inventory, manage member registrations, and handle book checkouts and returns efficiently.");
        files := example_files (lit "library") |});
    (lit "clinic",
     {| summary := JString (lit "A Clinic Appointment Management System for scheduling patient appointments, managing doctor schedules, and tracking medical records. The system helps healthcare facilities streamline their appointment booking process.");
        files := example_files (lit "clinic") |}) ].

Definition get_example (example_id : str) : result AnalysisResult :=
  if negb (Dict.mem example_id EXAMPLES)
  then Raise (ValueError Example_not_found)
  else py_getitem EXAMPLES example_id.

Definition list_examples : list str := Dict.keys EXAMPLES.

End Examples.
End ExampleService.

(* ================================================================== *)
(** ** [Settings.get_cors_origins] ([app/core/config.py]) *)

Module Settings.

(** [s.split(sep)] for a separator of one character: the pieces between
    the separators, in order; an empty text gives one empty piece. *)
Fixpoint split (sep : N) (s : str) : list str :=
  match s with
  | [] => [[]]
  | c :: s' =>
      if N.eqb c sep then [] :: split sep s'
      else
        match split sep s' with
        | piece :: pieces => (c :: piece) :: pieces
        | [] => [[c]]
        end
  end.

(** A [str] is true when it is not empty. *)
Definition truthy (s : str) : bool :=
  match s with
  | [] => false
  | _ :: _ => true
  end.

(** [get_cors_origins], for the [str] the field [CORS_ORIGINS] is declared
    to hold: the comprehension keeps the pieces whose stripped text is not
    empty and yields them stripped. *)
Definition get_cors_origins (CORS_ORIGINS : str) : list str :=
  List.map (fun origin => strip origin)
           (List.filter (fun origin => truthy (strip origin))
                        (split 44%N CORS_ORIGINS)).

End Settings.

(* ================================================================== *)
(** ** [AnalyzeRequest.validate_description] ([app/models/schemas.py]) *)

Module AnalyzeRequest.

Definition validate_description (v : str) : str := strip v.

End AnalyzeRequest.

(* ================================================================== *)
(** ** Exceptions at the HTTP boundary *)

(** The exceptions met in [process_image] and in the route handlers: the
    built-in ones of [exn], whatever the generation client raises (only
    whether it is a [ValueError] matters to the handlers), and FastAPI's
    [HTTPException] with its status code and its detail. *)
Inductive py_exception : Type :=
| Builtin (e : exn)
| ClientError (is_value_error : bool) (message : str)
| HTTPException (status_code : N) (detail : http_detail)

with http_detail : Type :=
| File_must_be_an_image
| Image_size_exceeds_maximum (max_upload_size : Z)
| Text_of (e : py_exception)
| Failed_to_process_image (e : py_exception).

(** [isinstance(e, ValueError)]: [JSONDecodeError] is a subclass of
    [ValueError]; [HTTPException] derives from [Exception] only. *)
Definition is_ValueError (e : py_exception) : bool :=
  match e with
  | Builtin JSONDecodeError => true
  | Builtin (ValueError _) => true
  | Builtin _ => false
  | ClientError is_value_error _ => is_value_error
  | HTTPException _ _ => false
  end.

Inductive outcome (A : Type) : Type :=
| Return (a : A)
| Throw (e : py_exception).
Arguments Return {A} a.
Arguments Throw {A} e.

Definition outcome_bind {A B} (m : outcome A) (f : A -> outcome B)
  : outcome B :=
  match m with
  | Return a => f a
  | Throw e => Throw e
  end.

Notation "x <~ m ;; k" := (outcome_bind m (fun x => k))
  (at level 61, m at next level, right associativity).

Definition of_result {A} (m : result A) : outcome A :=
  match m with
  | Ok a => Return a
  | Raise e => Throw (Builtin e)
  end.

(* ================================================================== *)
(** ** [AIService.process_image] and the routes ([app/api/routes.py]) *)

Module Routes.
Section Routes.

(** What the f-string of [_build_prompt] gives before and after the value
    of [description] (line 84 of [ai_service.py]).  Its only other
    replacement field, on line 260, holds the constant [...], so both texts
    are fixed. *)
Variable prompt_head prompt_tail : str.

(** The generation client: from the image bytes and the prompt to the text
    of the response (lines 50-66), or to the exception the call raises. *)
Variable generate_content : list Byte.byte -> str -> outcome str.

(** [settings.MAX_UPLOAD_SIZE] *)
Variable MAX_UPLOAD_SIZE : Z.

(** The shaping of a result into the response body (lines 58-62 and
    102-105): [to_response] of the class [AnalysisResult], which is not
    among the sources, then the validation and the dump of
    [AnalysisResponse]. *)
Variable Response : Type.
Variable shape_response : AnalysisResult -> outcome Response.

Definition _build_prompt (description : str) : str :=
  prompt_head ++ description ++ prompt_tail.

(** [process_image]: the [except] clause logs and raises the exception
    again. *)
Definition process_image (image_data : list Byte.byte) (description : str)
  : outcome AnalysisResult :=
  match
    (let prompt := _build_prompt description in
     response_text <~ generate_content image_data prompt ;;
     result <~ of_result (AIService._parse_response response_text description) ;;
     Return result)
  with
  | Return result => Return result
  | Throw e => Throw e
  end.

(** The body of the [try] statement of [analyze_image].  [content_type] is
    [image.content_type], which is [None] when the part has no such header;
    [image_data] is what [image.read()] gives. *)
Definition analyze_image_body
           (content_type : option str) (image_data : list Byte.byte)
           (description : str) : outcome Response :=
  is_image <~ match content_type with
              | Some content_type => Return (startswith (lit "image/") content_type)
              | None => Throw (Builtin AttributeError)
              end ;;
  if negb is_image
  then Throw (HTTPException 400 File_must_be_an_image)
  else
    if (Z.of_nat (List.length image_data) >? MAX_UPLOAD_SIZE)%Z
    then Throw (HTTPException 400 (Image_size_exceeds_maximum MAX_UPLOAD_SIZE))
    else
      result <~ process_image image_data description ;;
      shape_response result.

(** [analyze_image]: [except ValueError] answers 400 with the text of the
    exception, [except Exception] answers 500. *)
Definition analyze_image
           (content_type : option str) (image_data : list Byte.byte)
           (description : str) : outcome Response :=
  match analyze_image_body content_type image_data description with
  | Return response => Return response
  | Throw e =>
      if is_ValueError e
      then Throw (HTTPException 400 (Text_of e))
      else Throw (HTTPException 500 (Failed_to_process_image e))
  end.

(** The texts of the example files, as in [ExampleService]. *)
Variable file_text : str -> str -> str.

(** The route [list_examples]. *)
Definition list_examples : list str := ExampleService.list_examples file_text.

(** The route [get_example]: [except ValueError] answers 404; there is no
    other clause. *)
Definition get_example (example_id : str) : outcome Response :=
  match
    (result <~ of_result (ExampleService.get_example file_text example_id) ;;
     shape_response result)
  with
  | Return response => Return response
  | Throw e =>
      if is_ValueError e
      then Throw (HTTPException 404 (Text_of e))
      else Throw e
  end.

End Routes.
End Routes.

(* ================================================================== *)
(** ** Sample texts *)

(** [dq "..."]: the literal with every apostrophe read as a double quote,
    to write JSON texts. *)
Definition dq (s : string) : str :=
  List.map (fun c => if N.eqb c 39 then 34%N else c) (lit s).

(* ================================================================== *)
(** ** Vocabulary of the statements *)

(** *** Texts *)

(** Only white space, in the sense of [str.strip]. *)
Definition all_space (w : str) : Prop := forallb is_space w = true.

(** A text that starts and ends with characters [strip] keeps. *)
Definition solid (s : str) : Prop :=
  exists f l body tail,
    s = f :: tail /\ s = body ++ [l] /\
    is_space f = false /\ is_space l = false.

(** [Suffix r s]: [r] is what is left of [s] after some prefix. *)
Definition Suffix (r s : str) : Prop := exists pre, s = pre ++ r.

(** The last character of a JSON value: a closing quote, brace or bracket,
    a digit, or the last letter of [null], [true], [false], [NaN],
    [Infinity]. *)
Definition is_end (c : N) : bool :=
  ((c =? 34) || (c =? 125) || (c =? 93) || Json.is_digit c
   || (c =? 108) || (c =? 101) || (c =? 78) || (c =? 121))%N.

(** The first character of a JSON value. *)
Definition is_start (c : N) : bool :=
  ((c =? 34) || (c =? 123) || (c =? 91) || Json.is_digit c || (c =? 45)
   || (c =? 110) || (c =? 116) || (c =? 102) || (c =? 78) || (c =? 73))%N.

(** [Ends s r]: scanning [s] stopped at [r], right after a character a
    value can end with. *)
Definition Ends (s r : str) : Prop :=
  exists l, is_end l = true /\ Suffix (l :: r) s.

(** A text without fence: its first character is no white space, no
    backtick and no [j]; its last character is no white space and no
    backtick. *)
Definition fence_free (core : str) : Prop :=
  exists f l body tail,
    core = f :: tail /\ core = body ++ [l] /\
    (is_space f = false /\ f <> 96%N /\ f <> 106%N) /\
    (is_space l = false /\ l <> 96%N).

(** The closing marker line 310 looks for. *)
Definition fence : str := lit "```".

(** The two opening markers lines 306-309 look for. *)
Definition opening_fences : list str := [lit "```json"; lit "```"].

(** *** Mappings *)

(** [setdefault k v d] stores [v] under [k] unless [k] is there. *)
Definition setdefault {V} (k : str) (v : V) (d : Dict.dict V) : Dict.dict V :=
  if negb (Dict.mem k d) then Dict.set k v d else d.

(** [extends d d']: every entry of [d] is an entry of [d']. *)
Definition extends {V} (d d' : Dict.dict V) : Prop :=
  forall k v, Dict.get k d = Some v -> Dict.get k d' = Some v.

(** *** The file map of a response *)

(** The four required files. *)
Definition required_files : list str :=
  [AIService.App_jsx; AIService.models_py; AIService.main_py;
   AIService.README_md].

(** The accepted names of the React file other than [App.jsx]. *)
Definition variant_names : list str :=
  [lit "App.tsx"; lit "app.jsx"; lit "app.tsx"; lit "App.js"; lit "app.js"].

(** The placeholder of each of the four required files. *)
Definition placeholder_of (k : str) : option str :=
  if Str.eqb k AIService.App_jsx then Some AIService.App_jsx_placeholder
  else Dict.get k AIService.critical_files.

(** Lines 343-347 as a function of the map: the content of the found file
    is stored under [App.jsx] unless that key exists. *)
Definition react_step (nf : Dict.dict json) : Dict.dict json :=
  match AIService.find_react_file nf with
  | Some k =>
      match Dict.get k nf with
      | Some v =>
          if Str.eqb k AIService.App_jsx then nf
          else setdefault AIService.App_jsx v nf
      | None => nf
      end
  | None => nf
  end.

(** What lines 328-365 make of the received entries. *)
Definition normalized (fs : list (str * json)) : Dict.dict json :=
  AIService.ensure_critical_files
    (AIService.ensure_App_jsx (react_step (AIService.copy_files fs))).

(** Line 321: the summary of a decoded object. *)
Definition default_summary (description : str) : json :=
  JString (lit "Generated application based on: " ++ description).

Definition summary_of (m : Dict.dict json) (description : str) : json :=
  match Dict.get (lit "analysis_summary") m with
  | Some v => v
  | None => default_summary description
  end.

(** Line 322: the received files, the member [generated_files], an empty
    map when there is none. *)
Definition files_of (m : Dict.dict json) : json :=
  match Dict.get (lit "generated_files") m with
  | Some v => v
  | None => JObject Dict.empty
  end.

(** *** Texts and lists of texts, for the further properties *)

(** [Infix a s]: [a] is a run of consecutive characters of [s]. *)
Definition Infix (a s : str) : Prop := exists p q, s = p ++ a ++ q.

(** Empty, or with a first and a last character that are not white
    space. *)
Definition trimmed (s : str) : Prop := s = [] \/ solid s.

Definition comma_free (s : str) : Prop := ~ In 44%N s.

(** [sep.join(l)] *)
Fixpoint join (sep : str) (l : list str) : str :=
  match l with
  | [] => []
  | [x] => x
  | x :: rest => x ++ sep ++ join sep rest
  end.

(** The required names a received mapping lacks, in the order of
    [required_files]. *)
Definition missing_required (fs : list (str * json)) : list str :=
  List.filter (fun k => negb (Dict.mem k fs)) required_files.

(* ================================================================== *)
(** * Properties *)

(** ** Facts about [str] operations *)

Module StrFacts.

Lemma eqb_eq (a b : str) : Str.eqb a b = true <-> a = b.
Proof.
  unfold Str.eqb. destruct (list_eq_dec N.eq_dec a b); split; congruence.
Qed.

Lemma eqb_neq (a b : str) : Str.eqb a b = false <-> a <> b.
Proof.
  unfold Str.eqb. destruct (list_eq_dec N.eq_dec a b); split; congruence.
Qed.

Lemma eqb_refl (a : str) : Str.eqb a a = true.
Proof. now apply eqb_eq. Qed.

Lemma strip_prefix_Some (p s r : str) :
  strip_prefix p s = Some r <-> s = p ++ r.
Proof.
  revert s. induction p as [|a p IH]; intros s; simpl.
  - split; congruence.
  - destruct s as [|b s]; [split; discriminate|].
    destruct (N.eqb_spec a b) as [->|Hab].
    + rewrite IH. split; congruence.
    + split; [discriminate | congruence].
Qed.

Lemma startswith_app (p r : str) : startswith p (p ++ r) = true.
Proof.
  unfold startswith.
  destruct (strip_prefix p (p ++ r)) eqn:E; [reflexivity|].
  assert (H : strip_prefix p (p ++ r) = Some r) by now apply strip_prefix_Some.
  congruence.
Qed.

Lemma startswith_head (a b : N) (p s : str) :
  a <> b -> startswith (a :: p) (b :: s) = false.
Proof.
  intros H. unfold startswith. simpl.
  destruct (N.eqb_spec a b); [contradiction | reflexivity].
Qed.

Lemma endswith_app (p r : str) : endswith p (r ++ p) = true.
Proof. unfold endswith. rewrite rev_app_distr. apply startswith_app. Qed.

Lemma endswith_last (a b : N) (p s : str) :
  a <> b -> endswith (p ++ [a]) (s ++ [b]) = false.
Proof.
  intros H. unfold endswith. rewrite !rev_app_distr. simpl.
  now apply startswith_head.
Qed.

Lemma slice_from_app (p r : str) : slice_from (List.length p) (p ++ r) = r.
Proof.
  unfold slice_from. rewrite skipn_app, skipn_all, Nat.sub_diag. reflexivity.
Qed.

Lemma slice_to_minus_app (p r : str) :
  slice_to_minus (List.length p) (r ++ p) = r.
Proof.
  unfold slice_to_minus. rewrite length_app.
  replace (List.length r + List.length p - List.length p)
    with (List.length r + 0) by lia.
  rewrite firstn_app_2. simpl. apply app_nil_r.
Qed.

(** White space in front and behind *)

Lemma lstrip_space_app (w s : str) :
  all_space w -> lstrip (w ++ s) = lstrip s.
Proof.
  unfold all_space. induction w as [|c w IH]; simpl; [reflexivity|].
  intros H. apply andb_true_iff in H as [Hc Hw]. rewrite Hc. auto.
Qed.

Lemma lstrip_head (c : N) (s : str) :
  is_space c = false -> lstrip (c :: s) = c :: s.
Proof. intros H. simpl. now rewrite H. Qed.

Lemma all_space_rev (w : str) : all_space w -> all_space (rev w).
Proof.
  unfold all_space. rewrite !forallb_forall. intros H x Hx.
  apply H. now apply in_rev.
Qed.

Lemma rstrip_app_space (s w : str) :
  all_space w -> rstrip (s ++ w) = rstrip s.
Proof.
  intros H. unfold rstrip. rewrite rev_app_distr.
  rewrite lstrip_space_app by now apply all_space_rev. reflexivity.
Qed.

Lemma rstrip_last (s : str) (c : N) :
  is_space c = false -> rstrip (s ++ [c]) = s ++ [c].
Proof.
  intros H. unfold rstrip. rewrite rev_app_distr. simpl. rewrite H.
  simpl. now rewrite rev_involutive.
Qed.

Lemma strip_solid (s : str) : solid s -> strip s = s.
Proof.
  intros (f & l & body & tail & Hf & Hl & Hsf & Hsl).
  unfold strip. rewrite Hf at 1. rewrite (lstrip_head _ _ Hsf).
  rewrite <- Hf, Hl. now apply rstrip_last.
Qed.

Lemma strip_padded (w1 s w2 : str) :
  all_space w1 -> all_space w2 -> solid s -> strip (w1 ++ s ++ w2) = s.
Proof.
  intros H1 H2 Hs. 
  destruct Hs as (f & l & body & tail & Hf & Hl & Hsf & Hsl).
  unfold strip. rewrite (lstrip_space_app _ _ H1).
  rewrite Hf at 1. simpl. rewrite Hsf.
  change (f :: tail ++ w2) with ((f :: tail) ++ w2).
  rewrite <- Hf, (rstrip_app_space _ _ H2), Hl. now apply rstrip_last.
Qed.

End StrFacts.

(** ** Facts about [dict] operations *)

Module DictFacts.
Section Facts.
Variable V : Type.
Implicit Types (d : Dict.dict V) (k : str) (v : V).

Lemma get_In k v d : Dict.get k d = Some v -> In (k, v) d.
Proof.
  induction d as [|[k' v'] d IH]; simpl; [discriminate|].
  destruct (Str.eqb k' k) eqn:E.
  - apply StrFacts.eqb_eq in E. intros [= ->]. left. now subst.
  - auto.
Qed.

Lemma get_None k d : Dict.get k d = None <-> ~ In k (Dict.keys d).
Proof.
  induction d as [|[k' v'] d IH]; simpl; [tauto|].
  destruct (Str.eqb k' k) eqn:E.
  - apply StrFacts.eqb_eq in E. split; [discriminate | tauto].
  - apply StrFacts.eqb_neq in E. rewrite IH. tauto.
Qed.

Lemma mem_In k d : Dict.mem k d = true <-> In k (Dict.keys d).
Proof.
  unfold Dict.mem. destruct (Dict.get k d) eqn:E.
  - split; [intros _|reflexivity].
    apply get_In in E. apply (in_map fst) in E. exact E.
  - apply get_None in E. split; [discriminate | contradiction].
Qed.

Lemma mem_false k d : Dict.mem k d = false <-> ~ In k (Dict.keys d).
Proof.
  rewrite <- mem_In. destruct (Dict.mem k d); split; congruence.
Qed.

Lemma mem_get k d : Dict.mem k d = true <-> exists v, Dict.get k d = Some v.
Proof.
  unfold Dict.mem. destruct (Dict.get k d) as [v|].
  - split; eauto.
  - split; [discriminate | intros [v Hv]; discriminate].
Qed.

Lemma In_get k v d : NoDup (Dict.keys d) -> In (k, v) d -> Dict.get k d = Some v.
Proof.
  induction d as [|[k' v'] d IH]; simpl; [tauto|].
  intros Hnd [Heq|Hin].
  - injection Heq as -> ->. now rewrite StrFacts.eqb_refl.
  - inversion Hnd as [|? ? Hk' Hnd']; subst.
    destruct (Str.eqb k' k) eqn:E; [|auto].
    apply StrFacts.eqb_eq in E. subst k'.
    exfalso. apply Hk'. apply (in_map fst) in Hin. exact Hin.
Qed.

Lemma get_set_same k v d : Dict.get k (Dict.set k v d) = Some v.
Proof.
  induction d as [|[k' v'] d IH]; simpl.
  - now rewrite StrFacts.eqb_refl.
  - destruct (Str.eqb k' k) eqn:E; simpl; now rewrite E.
Qed.

Lemma get_set_other k k' v d :
  k <> k' -> Dict.get k' (Dict.set k v d) = Dict.get k' d.
Proof.
  intros Hne. induction d as [|[k0 v0] d IH]; simpl.
  - apply StrFacts.eqb_neq in Hne. now rewrite Hne.
  - destruct (Str.eqb k0 k) eqn:E; simpl.
    + apply StrFacts.eqb_eq in E. subst k0.
      apply StrFacts.eqb_neq in Hne. now rewrite Hne.
    + now rewrite IH.
Qed.

Lemma mem_set_same k v d : Dict.mem k (Dict.set k v d) = true.
Proof. unfold Dict.mem. now rewrite get_set_same. Qed.

Lemma mem_set_other k k' v d :
  k <> k' -> Dict.mem k' (Dict.set k v d) = Dict.mem k' d.
Proof. intros H. unfold Dict.mem. now rewrite get_set_other. Qed.

(** A new key goes last. *)
Lemma set_absent k v d :
  Dict.mem k d = false -> Dict.set k v d = d ++ [(k, v)].
Proof.
  rewrite mem_false.
  induction d as [|[k' v'] d IH]; simpl; [reflexivity|].
  intros Hnin. destruct (Str.eqb k' k) eqn:E.
  - apply StrFacts.eqb_eq in E. tauto.
  - rewrite IH; tauto.
Qed.

(** An existing key keeps its place. *)
Lemma keys_set_present k v d :
  Dict.mem k d = true -> Dict.keys (Dict.set k v d) = Dict.keys d.
Proof.
  rewrite mem_In.
  induction d as [|[k' v'] d IH]; simpl; [tauto|].
  intros Hin. destruct (Str.eqb k' k) eqn:E; simpl; [reflexivity|].
  apply StrFacts.eqb_neq in E. f_equal. apply IH. tauto.
Qed.

Lemma keys_set_absent k v d :
  Dict.mem k d = false -> Dict.keys (Dict.set k v d) = Dict.keys d ++ [k].
Proof.
  intros H. rewrite set_absent by exact H.
  unfold Dict.keys. now rewrite map_app.
Qed.

Lemma NoDup_set k v d :
  NoDup (Dict.keys d) -> NoDup (Dict.keys (Dict.set k v d)).
Proof.
  intros Hnd. destruct (Dict.mem k d) eqn:E.
  - now rewrite keys_set_present.
  - rewrite keys_set_absent by exact E.
    apply mem_false in E.
    apply NoDup_rev in Hnd. rewrite <- (rev_involutive (_ ++ _)).
    apply NoDup_rev. rewrite rev_app_distr. simpl.
    constructor; [|exact Hnd]. now rewrite <- in_rev.
Qed.

Lemma Forall_set (P : V -> Prop) k v d :
  Forall (fun kv => P (snd kv)) d -> P v ->
  Forall (fun kv => P (snd kv)) (Dict.set k v d).
Proof.
  intros Hd Hv. induction d as [|[k' v'] d IH]; simpl.
  - constructor; [exact Hv | constructor].
  - inversion Hd; subst.
    destruct (Str.eqb k' k); constructor; auto.
Qed.

(** Storing the items of a duplicate-free list one by one after [acc]
    appends them. *)
Lemma fold_set_app (l : list (str * V)) d :
  NoDup (Dict.keys (d ++ l)) ->
  fold_left (fun d kv => Dict.set (fst kv) (snd kv) d) l d = d ++ l.
Proof.
  revert d. induction l as [|[k v] l IH]; intros d Hnd; simpl.
  - now rewrite app_nil_r.
  - assert (Hk : Dict.mem k d = false).
    { apply mem_false. intros Hin.
      unfold Dict.keys in Hnd. rewrite map_app in Hnd. simpl in Hnd.
      apply NoDup_remove_2 in Hnd. apply Hnd. apply in_or_app. now left. }
    rewrite (set_absent _ _ _ Hk).
    rewrite IH; rewrite <- app_assoc; simpl; [reflexivity | exact Hnd].
Qed.

Lemma fold_set_NoDup (l : list (str * V)) d :
  NoDup (Dict.keys d) ->
  NoDup (Dict.keys (fold_left (fun d kv => Dict.set (fst kv) (snd kv) d) l d)).
Proof.
  revert d. induction l as [|[k v] l IH]; intros d Hnd; simpl; [exact Hnd|].
  apply IH. now apply NoDup_set.
Qed.

Lemma extends_refl d : extends d d.
Proof. now intros k v. Qed.

Lemma extends_trans d1 d2 d3 :
  extends d1 d2 -> extends d2 d3 -> extends d1 d3.
Proof. intros H1 H2 k v H. now apply H2, H1. Qed.

Lemma extends_mem d d' k :
  extends d d' -> Dict.mem k d = true -> Dict.mem k d' = true.
Proof.
  intros H Hk. apply mem_get in Hk as [v Hv]. apply mem_get.
  exists v. now apply H.
Qed.

Lemma setdefault_extends k v d : extends d (setdefault k v d).
Proof.
  unfold setdefault. destruct (Dict.mem k d) eqn:E; simpl;
    [apply extends_refl|].
  intros k' v' H. destruct (list_eq_dec N.eq_dec k k') as [->|Hne].
  - unfold Dict.mem in E. now rewrite H in E.
  - now rewrite get_set_other.
Qed.

Lemma setdefault_mem k v d : Dict.mem k (setdefault k v d) = true.
Proof.
  unfold setdefault. destruct (Dict.mem k d) eqn:E; simpl;
    [exact E | apply mem_set_same].
Qed.

Lemma setdefault_present k v d :
  Dict.mem k d = true -> setdefault k v d = d.
Proof. unfold setdefault. now intros ->. Qed.

Lemma setdefault_absent k v d :
  Dict.mem k d = false -> setdefault k v d = d ++ [(k, v)].
Proof. unfold setdefault. intros H. rewrite H. now apply set_absent. Qed.

(** A stored default goes last; nothing else moves. *)
Lemma setdefault_appends k v d :
  exists added, setdefault k v d = d ++ added.
Proof.
  destruct (Dict.mem k d) eqn:E.
  - exists []. rewrite setdefault_present by exact E. now rewrite app_nil_r.
  - exists [(k, v)]. now apply setdefault_absent.
Qed.

Lemma setdefault_get k v d :
  Dict.get k (setdefault k v d)
  = match Dict.get k d with Some v' => Some v' | None => Some v end.
Proof.
  unfold setdefault, Dict.mem. destruct (Dict.get k d) eqn:E; simpl.
  - exact E.
  - apply get_set_same.
Qed.

Lemma setdefault_get_other k k' v d :
  k <> k' -> Dict.get k' (setdefault k v d) = Dict.get k' d.
Proof.
  intros H. unfold setdefault. destruct (Dict.mem k d); simpl;
    [reflexivity | now apply get_set_other].
Qed.

Lemma setdefault_keys k v d k' :
  In k' (Dict.keys (setdefault k v d)) -> k' = k \/ In k' (Dict.keys d).
Proof.
  unfold setdefault. destruct (Dict.mem k d) eqn:E; simpl; [now right|].
  rewrite keys_set_absent by exact E. rewrite in_app_iff. simpl.
  intros [H|[H|[]]]; auto.
Qed.

Lemma setdefault_NoDup k v d :
  NoDup (Dict.keys d) -> NoDup (Dict.keys (setdefault k v d)).
Proof.
  unfold setdefault. destruct (Dict.mem k d); simpl;
    [auto | apply NoDup_set].
Qed.

End Facts.
End DictFacts.

(** ** Facts about the decoder *)

Module JsonFacts.
Import Json.

Open Scope N_scope.

(** *** What is left of a text *)

Lemma Suffix_refl (s : str) : Suffix s s.
Proof. now exists []. Qed.

Lemma Suffix_trans (a b c : str) : Suffix a b -> Suffix b c -> Suffix a c.
Proof.
  intros [p ->] [q ->]. exists (q ++ p). now rewrite app_assoc.
Qed.

Lemma Suffix_cons (r s : str) (c : N) : Suffix r s -> Suffix r (c :: s).
Proof. intros [p ->]. now exists (c :: p). Qed.

Lemma Suffix_tail (r s : str) (c : N) : Suffix (c :: r) s -> Suffix r s.
Proof.
  intros [p ->]. exists (p ++ [c]). now rewrite <- app_assoc.
Qed.

Lemma Suffix_length (r s : str) :
  Suffix r s -> (List.length r <= List.length s)%nat.
Proof. intros [p ->]. rewrite length_app. lia. Qed.

Lemma skip_ws_split (s : str) :
  exists w, s = w ++ skip_ws s /\ forallb is_ws w = true.
Proof.
  induction s as [|c s (w & Hw & Hall)]; simpl.
  - now exists [].
  - destruct (is_ws c) eqn:E.
    + exists (c :: w). simpl. rewrite E, Hall. split; [congruence | reflexivity].
    + now exists [].
Qed.

Lemma skip_ws_Suffix (s : str) : Suffix (skip_ws s) s.
Proof. destruct (skip_ws_split s) as (w & Hw & _). now exists w. Qed.

Lemma Ends_Suffix (s r : str) : Ends s r -> Suffix r s.
Proof. intros (l & _ & H). now apply Suffix_tail in H. Qed.

Lemma Ends_within (s' s r : str) : Ends s' r -> Suffix s' s -> Ends s r.
Proof.
  intros (l & Hl & H) Hs. exists l. split; [exact Hl|].
  now apply Suffix_trans with s'.
Qed.

Lemma Ends_shorter (s r : str) :
  Ends s r -> (List.length r < List.length s)%nat.
Proof.
  intros (l & _ & H). apply Suffix_length in H. simpl in H. lia.
Qed.

(** Case analysis on the first [match] or [if] of a hypothesis. *)
Ltac break_in H :=
  match type of H with
  | context [match ?x with _ => _ end] => destruct x eqn:?
  end.

(** *** The decoder on some texts *)

Example loads_document :
  loads (dq " {'a': [1, -2.5e3, true, null], 'b': {}} ")
  = Ok (JObject [(lit "a", JArray [JInt 1; JFloat (lit "-2.5e3");
                                   JBool true; JNull]);
                 (lit "b", JObject [])]).
Proof. reflexivity. Qed.

Example loads_duplicate_key :
  loads (dq "{'a': 1, 'b': 2, 'a': 3}")
  = Ok (JObject [(lit "a", JInt 3); (lit "b", JInt 2)]).
Proof. reflexivity. Qed.

Example loads_escapes :
  loads (dq "'\u00e9\n\ud83d\ude00\uD83D'")
  = Ok (JString [233; 10; 128512; 55357]).
Proof. reflexivity. Qed.

Example loads_constants :
  loads (lit "-Infinity") = Ok (JFloat (lit "-Infinity"))
  /\ loads (lit "NaN") = Ok (JFloat (lit "NaN"))
  /\ loads (lit "-0") = Ok (JInt 0).
Proof. repeat split. Qed.

Example loads_errors :
  Forall (fun t => loads t = Raise JSONDecodeError)
         [ []; lit "{"; dq "{'a': 1,}"; lit "[1,]"; lit "01"; lit "1.";
           lit ".5"; lit "+1"; lit "- 1"; lit "nul"; lit "1 2";
           dq "{a: 1}"; dq "'\x'"; dq "'\u12'"; dq "'a" ++ [10] ++ dq "b'";
           [65279] ++ lit "{}"; [11] ++ lit "1" ].
Proof. repeat constructor. Qed.

(** *** Strings *)

Lemma scanstring_Suffix (n : nat) :
  forall s acc x r,
    (List.length s <= n)%nat ->
    scanstring s acc = Some (x, r) -> Suffix (34 :: r) s.
Proof.
  induction n as [|n IH]; intros s acc x r Hlen H.
  - destruct s; [discriminate | simpl in Hlen; lia].
  - destruct s as [|c s1]; [discriminate|].
    simpl in H, Hlen.
    repeat (break_in H; try discriminate);
      try (match goal with
           | E : (c =? 34) = true |- _ =>
               apply N.eqb_eq in E; subst c;
               injection H as _ <-; apply Suffix_refl
           end);
      subst; simpl in Hlen;
      (apply IH in H; [repeat (first [exact H | apply Suffix_cons]) | simpl; lia]).
Qed.

Lemma scanstring_rest (s acc x r : str) :
  scanstring s acc = Some (x, r) -> Suffix (34 :: r) s.
Proof. now apply (scanstring_Suffix (List.length s)). Qed.

(** *** Numbers *)

Lemma span_digits_spec (s : str) :
  forall ds r, span_digits s = (ds, r) ->
               s = ds ++ r /\ forallb is_digit ds = true.
Proof.
  induction s as [|c s IH]; simpl; intros ds r H.
  - now injection H as <- <-.
  - destruct (is_digit c) eqn:E.
    + destruct (span_digits s) as [ds' r'] eqn:E'.
      injection H as <- <-. destruct (IH _ _ eq_refl) as [-> Hall].
      simpl. now rewrite E, Hall.
    + now injection H as <- <-.
Qed.

Lemma digits_last (d : N) (ds : str) :
  is_digit d = true -> forallb is_digit ds = true ->
  exists body l, d :: ds = body ++ [l] /\ is_digit l = true.
Proof.
  revert d. induction ds as [|e ds IH]; intros d Hd Hall.
  - now exists [], d.
  - simpl in Hall. apply andb_true_iff in Hall as [He Hall].
    destruct (IH e He Hall) as (body & l & Heq & Hl).
    exists (d :: body), l. simpl. now rewrite Heq.
Qed.

Lemma is_digit_end (c : N) : is_digit c = true -> is_end c = true.
Proof. unfold is_end. intros ->. now rewrite !orb_true_r. Qed.

(** A digit followed by the digits [span_digits] takes ends in a digit. *)
Lemma digits_Ends (pre : str) (d : N) (s ds r : str) :
  is_digit d = true -> span_digits s = (ds, r) ->
  Ends (pre ++ d :: s) r.
Proof.
  intros Hd H. apply span_digits_spec in H as [-> Hall].
  destruct (digits_last d ds Hd Hall) as (body & l & Heq & Hl).
  exists l. split; [now apply is_digit_end|].
  exists (pre ++ body).
  change (d :: ds ++ r) with ((d :: ds) ++ r).
  rewrite Heq, <- !app_assoc. reflexivity.
Qed.

Lemma scan_natural_Ends (s ds r : str) :
  scan_natural s = Some (ds, r) -> Ends s r.
Proof.
  destruct s as [|d s2]; simpl; [discriminate|].
  destruct (N.eqb_spec d 48) as [->|_].
  - intros [= _ <-]. exists 48. split; [reflexivity | apply Suffix_refl].
  - destruct (is_digit d) eqn:Ed; [|discriminate].
    destruct (span_digits s2) as [ds' r'] eqn:Es.
    intros [= _ <-]. now apply (digits_Ends []) with ds'.
Qed.

Lemma scan_int_Ends (s : str) (neg : bool) (ds r : str) :
  scan_int s = Some (neg, ds, r) -> Ends s r.
Proof.
  destruct s as [|c s']; [discriminate|]. unfold scan_int.
  destruct (c =? 45).
  - destruct (scan_natural s') as [[ds' r']|] eqn:E; [|discriminate].
    intros [= _ _ <-]. apply scan_natural_Ends in E.
    apply Ends_within with s'; [exact E | apply Suffix_cons, Suffix_refl].
  - destruct (scan_natural (c :: s')) as [[ds' r']|] eqn:E; [|discriminate].
    intros [= _ _ <-]. now apply scan_natural_Ends in E.
Qed.

Lemma Ends_trans (s r1 r2 : str) : Ends s r1 -> Ends r1 r2 -> Ends s r2.
Proof.
  intros H1 H2. apply Ends_within with r1; [exact H2|].
  now apply Ends_Suffix.
Qed.

Lemma scan_frac_Ends (s fr r : str) :
  scan_frac s = (fr, r) -> r = s \/ Ends s r.
Proof.
  unfold scan_frac. destruct s as [|p [|d s']]; try (intros [= _ <-]; now left).
  destruct ((p =? 46) && is_digit d) eqn:E; [|intros [= _ <-]; now left].
  apply andb_true_iff in E as [_ Ed].
  destruct (span_digits s') as [ds r'] eqn:Es.
  intros [= _ <-]. right. now apply (digits_Ends [p]) with ds.
Qed.

Lemma scan_exp_Ends (s ex r : str) :
  scan_exp s = (ex, r) -> r = s \/ Ends s r.
Proof.
  unfold scan_exp. destruct s as [|e s1]; [intros [= _ <-]; now left|].
  destruct ((e =? 101) || (e =? 69)); [|intros [= _ <-]; now left].
  set (sg := match s1 with
             | c :: s' => if (c =? 43) || (c =? 45) then ([c], s') else ([], s1)
             | [] => ([], s1)
             end).
  assert (Hsg : Suffix (snd sg) s1).
  { subst sg. destruct s1 as [|c s']; [apply Suffix_refl|].
    destruct ((c =? 43) || (c =? 45)); simpl;
      [apply Suffix_cons|]; apply Suffix_refl. }
  destruct sg as [sg s2]. simpl in Hsg.
  destruct (span_digits s2) as [[|d ds] r'] eqn:Es; [intros [= _ <-]; now left|].
  intros [= _ <-]. right.
  apply span_digits_spec in Es as [Heq Hall].
  simpl in Hall. apply andb_true_iff in Hall as [Hd Hall].
  destruct (digits_last d ds Hd Hall) as (body & l & Hbody & Hl).
  exists l. split; [now apply is_digit_end|].
  apply Suffix_cons. apply Suffix_trans with s2; [|exact Hsg].
  exists body. rewrite Heq.
  change (d :: ds ++ r') with ((d :: ds) ++ r').
  rewrite Hbody, <- app_assoc. reflexivity.
Qed.

Lemma match_number_Ends (s : str) (v : json) (r : str) :
  match_number s = Parsed v r -> Ends s r.
Proof.
  unfold match_number.
  destruct (scan_int s) as [[[neg ds] r1]|] eqn:Ei; [|discriminate].
  destruct (scan_frac r1) as [fr r2] eqn:Ef.
  destruct (scan_exp r2) as [ex r3] eqn:Ee.
  intros H. assert (r = r3) as -> by (destruct fr, ex; now injection H).
  apply scan_int_Ends in Ei.
  assert (H2 : Ends s r2).
  { destruct (scan_frac_Ends _ _ _ Ef) as [->|Hf]; [exact Ei|].
    now apply Ends_trans with r1. }
  destruct (scan_exp_Ends _ _ _ Ee) as [->|He]; [exact H2|].
  now apply Ends_trans with r2.
Qed.

Lemma match_number_start (s : str) (v : json) (r : str) :
  match_number s = Parsed v r ->
  exists c s1, s = c :: s1 /\ is_start c = true.
Proof.
  unfold match_number.
  destruct (scan_int s) as [[[neg ds] r1]|] eqn:Ei; [|discriminate].
  intros _. destruct s as [|c s1]; [discriminate|].
  exists c, s1. split; [reflexivity|].
  simpl in Ei. unfold is_start.
  destruct (N.eqb_spec c 45) as [->|_]; [reflexivity|].
  destruct (N.eqb_spec c 48) as [->|_]; [reflexivity|].
  destruct (is_digit c) eqn:Ed; [|discriminate].
  now rewrite !orb_true_r.
Qed.

(** *** Named constants *)

Lemma match_constant_Ends (s : str) (v : json) (r : str) :
  match_constant s = Some (v, r) ->
  Ends s r /\ exists c s1, s = c :: s1 /\ is_start c = true.
Proof.
  unfold match_constant. intros H.
  repeat (break_in H;
          [ match goal with
            | E : strip_prefix ?p s = Some _ |- _ =>
                apply StrFacts.strip_prefix_Some in E; subst s;
                injection H as _ <-; split;
                [ eexists; split;
                  [| exists (removelast p); reflexivity ]; reflexivity
                | eexists; eexists; split; reflexivity ]
            end
          | ]).
  discriminate.
Qed.

(** *** Values: one step of each scanner *)

Lemma scan_once_inv (n : nat) (s : str) (v : json) (r : str) :
  scan_once (S n) s = Parsed v r ->
  exists c s1, s = c :: s1 /\
    ( (c = 34 /\ exists x, scanstring s1 [] = Some (x, r) /\ v = JString x)
      \/ (c = 123 /\ exists c2 s2, skip_ws s1 = c2 :: s2 /\
            ((c2 = 125 /\ v = JObject [] /\ r = s2)
             \/ parse_object n (c2 :: s2) Dict.empty = Parsed v r))
      \/ (c = 91 /\ exists c2 s2, skip_ws s1 = c2 :: s2 /\
            ((c2 = 93 /\ v = JArray [] /\ r = s2)
             \/ parse_array n (c2 :: s2) [] = Parsed v r))
      \/ match_constant s = Some (v, r)
      \/ match_number s = Parsed v r ).
Proof.
  destruct s as [|c s1]; [discriminate|]. intros H. exists c, s1.
  split; [reflexivity|]. cbn [scan_once] in H.
  destruct (N.eqb_spec c 34) as [->|_].
  { left. split; [reflexivity|].
    destruct (scanstring s1 []) as [[x r']|]; [|discriminate].
    injection H as <- <-. now exists x. }
  destruct (N.eqb_spec c 123) as [->|_].
  { right; left. split; [reflexivity|].
    destruct (skip_ws s1) as [|c2 s2]; [discriminate|]. exists c2, s2.
    split; [reflexivity|].
    destruct (N.eqb_spec c2 125) as [->|_]; [|now right].
    injection H as <- <-. now left. }
  destruct (N.eqb_spec c 91) as [->|_].
  { right; right; left. split; [reflexivity|].
    destruct (skip_ws s1) as [|c2 s2]; [discriminate|]. exists c2, s2.
    split; [reflexivity|].
    destruct (N.eqb_spec c2 93) as [->|_]; [|now right].
    injection H as <- <-. now left. }
  destruct (match_constant (c :: s1)) as [[v' r']|].
  - injection H as <- <-. right; right; right; now left.
  - right; right; right; now right.
Qed.

Lemma parse_object_inv (n : nat) (s : str) (acc : Dict.dict json)
      (v : json) (r : str) :
  parse_object (S n) s acc = Parsed v r ->
  exists s1 key s2 s3 val s4 c5 s5,
    s = 34 :: s1 /\ scanstring s1 [] = Some (key, s2) /\
    skip_ws s2 = 58 :: s3 /\
    scan_once n (skip_ws s3) = Parsed val s4 /\
    skip_ws s4 = c5 :: s5 /\
    ( (c5 = 125 /\ v = JObject (Dict.set key val acc) /\ r = s5)
      \/ (c5 = 44 /\
          parse_object n (skip_ws s5) (Dict.set key val acc) = Parsed v r) ).
Proof.
  destruct s as [|c s1]; [discriminate|]. cbn [parse_object]. intros H.
  destruct (N.eqb_spec c 34) as [->|_]; [|discriminate].
  destruct (scanstring s1 []) as [[key s2]|] eqn:Ek; [|discriminate].
  destruct (skip_ws s2) as [|c3 s3] eqn:Ec; [discriminate|].
  destruct (N.eqb_spec c3 58) as [->|_]; [|discriminate].
  destruct (scan_once n (skip_ws s3)) as [val s4| |] eqn:Ev; try discriminate.
  destruct (skip_ws s4) as [|c5 s5] eqn:Ew; [discriminate|].
  exists s1, key, s2, s3, val, s4, c5, s5.
  repeat (split; [first [reflexivity | assumption]|]).
  destruct (N.eqb_spec c5 125) as [->|_].
  - injection H as <- <-. now left.
  - destruct (N.eqb_spec c5 44) as [->|_]; [|discriminate]. now right.
Qed.

Lemma parse_array_inv (n : nat) (s : str) (acc : list json)
      (v : json) (r : str) :
  parse_array (S n) s acc = Parsed v r ->
  exists val s1 c2 s2,
    scan_once n s = Parsed val s1 /\
    skip_ws s1 = c2 :: s2 /\
    ( (c2 = 93 /\ v = JArray (rev (val :: acc)) /\ r = s2)
      \/ (c2 = 44 /\ parse_array n (skip_ws s2) (val :: acc) = Parsed v r) ).
Proof.
  cbn [parse_array]. intros H.
  destruct (scan_once n s) as [val s1| |] eqn:Ev; try discriminate.
  destruct (skip_ws s1) as [|c2 s2] eqn:Ew; [discriminate|].
  exists val, s1, c2, s2. repeat (split; [first [reflexivity | assumption]|]).
  destruct (N.eqb_spec c2 93) as [->|_].
  - injection H as <- <-. now left.
  - destruct (N.eqb_spec c2 44) as [->|_]; [|discriminate]. now right.
Qed.

(** What [skip_ws] stops at is a suffix of the text it was given. *)
Lemma skip_ws_eq_Suffix (s r : str) : skip_ws s = r -> Suffix r s.
Proof. intros <-. apply skip_ws_Suffix. Qed.

(** *** Every scanner stops right after the last character of a value *)

Lemma scanners_End (n : nat) :
  (forall s v r, scan_once n s = Parsed v r -> Ends s r)
  /\ (forall s acc v r, parse_object n s acc = Parsed v r -> Ends s r)
  /\ (forall s acc v r, parse_array n s acc = Parsed v r -> Ends s r).
Proof.
  induction n as [|n (IHv & IHo & IHa)];
    [repeat split; intros; discriminate|].
  repeat split.
  - intros s v r H.
    apply scan_once_inv in H as (c & s1 & -> & H).
    destruct H as [(-> & x & Hs & _)
                  |[(-> & c2 & s2 & Hw & H)
                  |[(-> & c2 & s2 & Hw & H)
                  |[H|H]]]].
    + exists 34. split; [reflexivity|].
      apply Suffix_cons. now apply scanstring_rest in Hs.
    + apply skip_ws_eq_Suffix in Hw.
      destruct H as [(-> & _ & ->)|H].
      * exists 125. split; [reflexivity | now apply Suffix_cons].
      * apply IHo in H. apply Ends_within with (c2 :: s2);
          [exact H | now apply Suffix_cons].
    + apply skip_ws_eq_Suffix in Hw.
      destruct H as [(-> & _ & ->)|H].
      * exists 93. split; [reflexivity | now apply Suffix_cons].
      * apply IHa in H. apply Ends_within with (c2 :: s2);
          [exact H | now apply Suffix_cons].
    + now apply match_constant_Ends in H.
    + now apply match_number_Ends in H.
  - intros s acc v r H.
    apply parse_object_inv in H
      as (s1 & key & s2 & s3 & val & s4 & c5 & s5
          & -> & Hk & Hc & Hv & Hw & H).
    apply scanstring_rest, Suffix_tail in Hk.
    apply skip_ws_eq_Suffix, Suffix_tail in Hc.
    apply IHv, Ends_Suffix in Hv.
    pose proof (skip_ws_Suffix s3) as H3.
    apply skip_ws_eq_Suffix in Hw.
    assert (Hall : Suffix (c5 :: s5) (34 :: s1)).
    { apply Suffix_cons.
      repeat (eapply Suffix_trans; [|eassumption]). apply Suffix_refl. }
    destruct H as [(-> & _ & ->)|(-> & H)].
    + exists 125. now split.
    + apply IHo in H. apply Ends_within with (skip_ws s5); [exact H|].
      eapply Suffix_trans; [apply skip_ws_Suffix|].
      now apply Suffix_tail in Hall.
  - intros s acc v r H.
    apply parse_array_inv in H as (val & s1 & c2 & s2 & Hv & Hw & H).
    apply IHv, Ends_Suffix in Hv.
    apply skip_ws_eq_Suffix in Hw.
    assert (Hall : Suffix (c2 :: s2) s) by now apply Suffix_trans with s1.
    destruct H as [(-> & _ & ->)|(-> & H)].
    + exists 93. now split.
    + apply IHa in H. apply Ends_within with (skip_ws s2); [exact H|].
      eapply Suffix_trans; [apply skip_ws_Suffix|].
      now apply Suffix_tail in Hall.
Qed.

Lemma scan_once_Ends (n : nat) (s : str) (v : json) (r : str) :
  scan_once n s = Parsed v r -> Ends s r.
Proof. apply scanners_End. Qed.

Lemma scan_once_start (n : nat) (s : str) (v : json) (r : str) :
  scan_once n s = Parsed v r ->
  exists c s1, s = c :: s1 /\ is_start c = true.
Proof.
  destruct n as [|n]; [discriminate|]. intros H.
  apply scan_once_inv in H as (c & s1 & -> & H).
  destruct H as [(-> & _)|[(-> & _)|[(-> & _)|[H|H]]]];
    try (eexists; exists s1; split; reflexivity).
  - now apply match_constant_Ends in H.
  - now apply match_number_start in H.
Qed.

(** *** Decoded objects have unique keys *)

Lemma match_constant_wf (s : str) (v : json) (r : str) :
  match_constant s = Some (v, r) -> wf_json v.
Proof.
  unfold match_constant. intros H.
  repeat (break_in H; [injection H as <- _; constructor|]).
  discriminate.
Qed.

Lemma match_number_wf (s : str) (v : json) (r : str) :
  match_number s = Parsed v r -> wf_json v.
Proof.
  unfold match_number. intros H.
  repeat (break_in H; try discriminate);
    injection H as <- _; constructor.
Qed.

Lemma scanners_wf (n : nat) :
  (forall s v r, scan_once n s = Parsed v r -> wf_json v)
  /\ (forall s acc v r,
         parse_object n s acc = Parsed v r ->
         NoDup (Dict.keys acc) ->
         Forall (fun kv => wf_json (snd kv)) acc -> wf_json v)
  /\ (forall s acc v r,
         parse_array n s acc = Parsed v r ->
         Forall wf_json acc -> wf_json v).
Proof.
  induction n as [|n (IHv & IHo & IHa)];
    [repeat split; intros; discriminate|].
  repeat split.
  - intros s v r H.
    apply scan_once_inv in H as (c & s1 & -> & H).
    destruct H as [(-> & x & _ & ->)
                  |[(-> & c2 & s2 & _ & H)
                  |[(-> & c2 & s2 & _ & H)
                  |[H|H]]]].
    + constructor.
    + destruct H as [(_ & -> & _)|H].
      * constructor; constructor.
      * apply IHo in H; [exact H | constructor | constructor].
    + destruct H as [(_ & -> & _)|H].
      * constructor; constructor.
      * apply IHa in H; [exact H | constructor].
    + now apply match_constant_wf in H.
    + now apply match_number_wf in H.
  - intros s acc v r H Hnd Hwf.
    apply parse_object_inv in H
      as (s1 & key & s2 & s3 & val & s4 & c5 & s5
          & _ & _ & _ & Hv & _ & H).
    apply IHv in Hv.
    pose proof (DictFacts.NoDup_set _ key val acc Hnd) as Hnd'.
    pose proof (DictFacts.Forall_set _ wf_json key val acc Hwf Hv) as Hwf'.
    destruct H as [(_ & -> & _)|(_ & H)].
    + now constructor.
    + now apply IHo in H.
  - intros s acc v r H Hwf.
    apply parse_array_inv in H as (val & s1 & c2 & s2 & Hv & _ & H).
    apply IHv in Hv.
    destruct H as [(_ & -> & _)|(_ & H)].
    + constructor. apply Forall_rev. now constructor.
    + apply IHa in H; [exact H | now constructor].
Qed.

(** *** The recursion budget is never used up *)

Lemma skip_ws_length (s : str) :
  (List.length (skip_ws s) <= List.length s)%nat.
Proof. apply Suffix_length, skip_ws_Suffix. Qed.

Lemma match_number_fuel (s : str) : match_number s <> NoFuel.
Proof.
  unfold match_number. intros H.
  repeat (break_in H; try discriminate).
Qed.

Lemma scanners_fuel (n : nat) :
  (forall s, (2 * List.length s < n)%nat -> scan_once n s <> NoFuel)
  /\ (forall s acc,
         (2 * List.length s < n)%nat -> parse_object n s acc <> NoFuel)
  /\ (forall s acc,
         (2 * List.length s + 1 < n)%nat -> parse_array n s acc <> NoFuel).
Proof.
  induction n as [|n (IHv & IHo & IHa)]; [repeat split; intros; lia|].
  repeat split.
  - intros [|c s1] Hlen H; [discriminate|].
    cbn [scan_once] in H. simpl in Hlen.
    destruct (c =? 34).
    { destruct (scanstring s1 []) as [[x r']|]; discriminate. }
    destruct (c =? 123).
    { destruct (skip_ws s1) as [|c2 s2] eqn:Ew; [discriminate|].
      destruct (c2 =? 125); [discriminate|].
      pose proof (skip_ws_length s1) as Hl. rewrite Ew in Hl.
      apply IHo in H; [exact H | lia]. }
    destruct (c =? 91).
    { destruct (skip_ws s1) as [|c2 s2] eqn:Ew; [discriminate|].
      destruct (c2 =? 93); [discriminate|].
      pose proof (skip_ws_length s1) as Hl. rewrite Ew in Hl.
      apply IHa in H; [exact H | lia]. }
    destruct (match_constant (c :: s1)) as [[v' r']|]; [discriminate|].
    now apply match_number_fuel in H.
  - intros [|c s1] acc Hlen H; [discriminate|].
    cbn [parse_object] in H. simpl in Hlen.
    destruct (c =? 34); [|discriminate].
    destruct (scanstring s1 []) as [[key s2]|] eqn:Ek; [|discriminate].
    apply scanstring_rest, Suffix_length in Ek. simpl in Ek.
    destruct (skip_ws s2) as [|c3 s3] eqn:Ec; [discriminate|].
    pose proof (skip_ws_length s2) as Hl2. rewrite Ec in Hl2. simpl in Hl2.
    destruct (c3 =? 58); [|discriminate].
    pose proof (skip_ws_length s3) as Hl3.
    destruct (scan_once n (skip_ws s3)) as [val s4| |] eqn:Ev;
      [|discriminate|].
    + apply scan_once_Ends, Ends_shorter in Ev.
      destruct (skip_ws s4) as [|c5 s5] eqn:Ew; [discriminate|].
      pose proof (skip_ws_length s4) as Hl4. rewrite Ew in Hl4. simpl in Hl4.
      destruct (c5 =? 125); [discriminate|].
      destruct (c5 =? 44); [|discriminate].
      pose proof (skip_ws_length s5) as Hl5.
      apply IHo in H; [exact H | lia].
    + apply IHv in Ev; [exact Ev | lia].
  - intros s acc Hlen H. cbn [parse_array] in H.
    destruct (scan_once n s) as [val s1| |] eqn:Ev; [|discriminate|].
    + apply scan_once_Ends, Ends_shorter in Ev.
      destruct (skip_ws s1) as [|c2 s2] eqn:Ew; [discriminate|].
      pose proof (skip_ws_length s1) as Hl1. rewrite Ew in Hl1. simpl in Hl1.
      destruct (c2 =? 93); [discriminate|].
      destruct (c2 =? 44); [|discriminate].
      pose proof (skip_ws_length s2) as Hl2.
      apply IHa in H; [exact H | lia].
    + apply IHv in Ev; [exact Ev | lia].
Qed.

(** *** [loads] *)

(** The decoder never stops for lack of recursion budget: a failure of
    [loads] is a syntax error of the text. *)
Lemma loads_never_out_of_fuel (s : str) :
  scan_once (loads_fuel s) (skip_ws s) <> NoFuel.
Proof.
  apply scanners_fuel. unfold loads_fuel.
  pose proof (skip_ws_length s). lia.
Qed.

Lemma loads_Ok (s : str) (v : json) :
  loads s = Ok v ->
  exists r, scan_once (loads_fuel s) (skip_ws s) = Parsed v r
            /\ skip_ws r = [].
Proof.
  unfold loads. destruct (startswith [65279] s); [discriminate|].
  destruct (scan_once (loads_fuel s) (skip_ws s)) as [v' r| |];
    try discriminate.
  destruct (skip_ws r) eqn:Er; [|discriminate].
  intros [= ->]. now exists r.
Qed.

Lemma loads_wf (s : str) (v : json) : loads s = Ok v -> wf_json v.
Proof.
  intros H. apply loads_Ok in H as (r & H & _).
  now apply scanners_wf in H.
Qed.

(** [loads] raises nothing but [JSONDecodeError]. *)
Lemma loads_Raise (s : str) (e : exn) :
  loads s = Raise e -> e = JSONDecodeError.
Proof.
  unfold loads. intros H.
  repeat (break_in H; try discriminate); now injection H.
Qed.

(** *** The outline of a document [loads] accepts *)

Lemma is_space_true (c : N) :
  is_space c = true ->
  9 <= c <= 13 \/ 28 <= c <= 32 \/ c = 133 \/ c = 160 \/ c = 5760
  \/ 8192 <= c <= 8202 \/ c = 8232 \/ c = 8233 \/ c = 8239 \/ c = 8287
  \/ c = 12288.
Proof.
  unfold is_space.
  rewrite !orb_true_iff, !andb_true_iff, !N.eqb_eq, !N.leb_le. tauto.
Qed.

Lemma is_ws_space (c : N) : is_ws c = true -> is_space c = true.
Proof.
  unfold is_ws. rewrite !orb_true_iff, !N.eqb_eq.
  intros [[[-> | ->] | ->] | ->]; reflexivity.
Qed.

Lemma all_ws_space (w : str) :
  forallb is_ws w = true -> all_space w.
Proof.
  unfold all_space. rewrite !forallb_forall.
  intros H x Hx. now apply is_ws_space, H.
Qed.

Lemma is_start_spec (c : N) :
  is_start c = true -> is_space c = false /\ c <> 96 /\ c <> 106.
Proof.
  unfold is_start, is_digit.
  rewrite !orb_true_iff, !andb_true_iff, !N.eqb_eq, !N.leb_le. intros H.
  split; [|lia].
  destruct (is_space c) eqn:E; [|reflexivity].
  apply is_space_true in E. lia.
Qed.

Lemma is_end_spec (c : N) :
  is_end c = true -> is_space c = false /\ c <> 96.
Proof.
  unfold is_end, is_digit.
  rewrite !orb_true_iff, !andb_true_iff, !N.eqb_eq, !N.leb_le. intros H.
  split; [|lia].
  destruct (is_space c) eqn:E; [|reflexivity].
  apply is_space_true in E. lia.
Qed.

(** A text [loads] accepts is one value between white space; the value
    begins and ends with characters no fence is made of. *)
Lemma loads_shape (t : str) (v : json) :
  loads t = Ok v ->
  exists a core b,
    t = a ++ core ++ b /\
    all_space a /\ all_space b /\ fence_free core.
Proof.
  intros H. apply loads_Ok in H as (r & H & Hr).
  destruct (skip_ws_split t) as (a & Ha & Hwa).
  destruct (skip_ws_split r) as (b & Hb & Hwb).
  rewrite Hr, app_nil_r in Hb. subst b.
  pose proof (scan_once_start _ _ _ _ H) as (c & s1 & Hc & Hstart).
  apply scan_once_Ends in H as (l & Hend & pre & Hpre).
  exists a, (pre ++ [l]), r.
  split; [|split; [|split]].
  - rewrite Ha at 1. rewrite Hpre, <- !app_assoc. reflexivity.
  - now apply all_ws_space.
  - now apply all_ws_space.
  - apply is_start_spec in Hstart. apply is_end_spec in Hend.
    exists c, l, pre. rewrite Hc in Hpre.
    destruct pre as [|p pre']; injection Hpre as -> _.
    + exists []. repeat split; tauto.
    + exists (pre' ++ [l]). repeat split; tauto.
Qed.

End JsonFacts.

(** ** Facts about the steps of [_parse_response] *)

Module AIServiceFacts.
Import AIService StrFacts.

(** *** Fence stripping *)

Example clean_response_samples :
  clean_response (lit "  ```json" ++ nl ++ lit "{}" ++ nl ++ lit "```  ")
  = lit "{}"
  /\ clean_response (lit "```{}```") = lit "{}"
  /\ clean_response ([160%N] ++ lit "{}" ++ [8232%N]) = lit "{}"
  /\ clean_response (lit "``` json {} ```") = lit "json {}".
Proof. repeat split. Qed.

Lemma startswith_padded (x : N) (p W : str) (f : N) (rest : str) :
  all_space W -> is_space x = false -> f <> x ->
  startswith (x :: p) (W ++ f :: rest) = false.
Proof.
  intros HW Hx Hf. destruct W as [|c W]; simpl.
  - apply startswith_head. congruence.
  - apply startswith_head. unfold all_space in HW. simpl in HW.
    apply andb_true_iff in HW as [Hc _]. congruence.
Qed.

Lemma all_space_app (a b : str) :
  all_space a -> all_space b -> all_space (a ++ b).
Proof.
  unfold all_space. rewrite forallb_app. now intros -> ->.
Qed.

Lemma fence_free_solid (core : str) : fence_free core -> solid core.
Proof.
  intros (f & l & body & tail & Hf & Hl & (Hsf & _) & (Hsl & _)).
  now exists f, l, body, tail.
Qed.

(** Without a fence [clean_response] only strips the white space. *)
Lemma clean_response_plain (a core b : str) :
  all_space a -> all_space b -> fence_free core ->
  clean_response (a ++ core ++ b) = core.
Proof.
  intros Ha Hb Hcore. pose proof (fence_free_solid _ Hcore) as Hsolid.
  unfold clean_response. rewrite (strip_padded _ _ _ Ha Hb Hsolid).
  destruct Hcore as (f & l & body & tail & Hf & Hl & (_ & Hf96 & _) & (_ & Hl96)).
  assert (H1 : startswith (lit "```json") core = false).
  { rewrite Hf. apply startswith_head. intros E. apply Hf96. now rewrite <- E. }
  assert (H2 : startswith (lit "```") core = false).
  { rewrite Hf. apply startswith_head. intros E. apply Hf96. now rewrite <- E. }
  assert (H3 : endswith (lit "```") core = false).
  { rewrite Hl. apply (endswith_last 96 l [96; 96]%N). congruence. }
  rewrite H1, H2, H3. now apply strip_solid.
Qed.

(** With a fence around the same text the result is the same. *)
Lemma clean_response_fenced (o1 opening w1 a core b w2 o2 : str) :
  In opening opening_fences ->
  all_space o1 -> all_space w1 -> all_space a ->
  all_space b -> all_space w2 -> all_space o2 ->
  fence_free core ->
  clean_response
    (o1 ++ (opening ++ w1 ++ (a ++ core ++ b) ++ w2 ++ fence) ++ o2) = core.
Proof.
  intros Hop Ho1 Hw1 Ha Hb Hw2 Ho2 Hcore.
  pose proof (fence_free_solid _ Hcore) as Hsolid.
  destruct Hcore as (f & l & body & tail & Hf & Hl & (Hsf & Hf96 & Hf106) & _).
  set (Y := w1 ++ (a ++ core ++ b) ++ w2 ++ fence).
  assert (HY : Y = (w1 ++ a) ++ f :: (tail ++ b ++ w2 ++ fence)).
  { subst Y. rewrite Hf. rewrite <- !app_assoc. reflexivity. }
  assert (HYend : Y = ((w1 ++ a) ++ core ++ (b ++ w2)) ++ fence).
  { subst Y. rewrite <- !app_assoc. reflexivity. }
  assert (HWa : all_space (w1 ++ a)) by now apply all_space_app.
  assert (HbW : all_space (b ++ w2)) by now apply all_space_app.
  assert (Hno : startswith (lit "```") Y = false).
  { rewrite HY. now apply startswith_padded. }
  assert (Hend : endswith (lit "```") Y = true).
  { rewrite HYend. apply endswith_app. }
  assert (Hcut : slice_to_minus 3 Y = (w1 ++ a) ++ core ++ (b ++ w2)).
  { rewrite HYend. apply (slice_to_minus_app fence). }
  assert (Hsolid' : solid (opening ++ Y)).
  { exists 96%N, 96%N, (opening ++ (w1 ++ a) ++ core ++ (b ++ w2) ++ [96; 96]%N).
    destruct Hop as [<-|[<-|[]]]; eexists;
      (split; [reflexivity|]); (split; [|split; reflexivity]);
      rewrite HYend; rewrite <- !app_assoc; reflexivity. }
  unfold clean_response.
  rewrite (strip_padded _ _ _ Ho1 Ho2 Hsolid').
  destruct Hop as [<-|[<-|[]]].
  - rewrite (startswith_app (lit "```json") Y).
    assert (H7 : slice_from 7 (lit "```json" ++ Y) = Y)
      by apply (slice_from_app (lit "```json") Y).
    rewrite H7, Hno, Hend, Hcut. now apply strip_padded.
  - assert (Hj : startswith (lit "```json") (lit "```" ++ Y) = false).
    { change (startswith (lit "json") Y = false).
      rewrite HY. now apply startswith_padded. }
    rewrite Hj.
    rewrite (startswith_app (lit "```") Y).
    assert (H3 : slice_from 3 (lit "```" ++ Y) = Y)
      by apply (slice_from_app (lit "```") Y).
    rewrite H3, Hend, Hcut. now apply strip_padded.
Qed.

(** *** The file map *)


(** The names [is_react_name] accepts are the six of [react_names]. *)
Lemma is_react_name_In (k : str) :
  is_react_name k = true <-> In k react_names.
Proof.
  unfold is_react_name. rewrite existsb_exists. split.
  - intros (x & Hx & E). apply eqb_eq in E. now subst.
  - intros H. exists k. split; [exact H | apply eqb_refl].
Qed.

(** The key the scan of lines 336-340 stops at is a key of the map. *)
Lemma find_react_file_Some (nf : Dict.dict json) (k : str) :
  find_react_file nf = Some k ->
  In k react_names /\ exists v, Dict.get k nf = Some v.
Proof.
  unfold find_react_file. intros H. apply find_some in H as [Hin Hk].
  split; [now apply is_react_name_In|].
  apply DictFacts.mem_get. now apply DictFacts.mem_In.
Qed.

(** The lookup of line 346 never raises [KeyError]. *)
Lemma map_react_file_Ok (nf : Dict.dict json) :
  map_react_file nf = Ok (react_step nf).
Proof.
  unfold map_react_file, react_step.
  destruct (find_react_file nf) as [k|] eqn:E; [|reflexivity].
  destruct (find_react_file_Some _ _ E) as (_ & v & Hv).
  rewrite Hv. destruct (Str.eqb k App_jsx); simpl; [reflexivity|].
  unfold setdefault, py_getitem.
  destruct (Dict.mem App_jsx nf); simpl; [reflexivity|].
  now rewrite Hv.
Qed.

Lemma ensure_App_jsx_eq (nf : Dict.dict json) :
  ensure_App_jsx nf = setdefault App_jsx (JString App_jsx_placeholder) nf.
Proof. reflexivity. Qed.

Lemma ensure_critical_files_eq (nf : Dict.dict json) :
  ensure_critical_files nf
  = setdefault README_md
      (JString (lit "# README" ++ nl ++ lit "# File not generated by AI"))
      (setdefault main_py
         (JString (lit "# FastAPI application" ++ nl
                   ++ lit "# File not generated by AI"))
         (setdefault models_py
            (JString (lit "# SQLAlchemy models" ++ nl
                      ++ lit "# File not generated by AI"))
            nf)).
Proof. reflexivity. Qed.

Lemma react_step_extends (nf : Dict.dict json) : extends nf (react_step nf).
Proof.
  unfold react_step.
  destruct (find_react_file nf) as [k|]; [|apply DictFacts.extends_refl].
  destruct (Dict.get k nf) as [v|]; [|apply DictFacts.extends_refl].
  destruct (Str.eqb k App_jsx);
    [apply DictFacts.extends_refl | apply DictFacts.setdefault_extends].
Qed.

Lemma ensure_extends (nf : Dict.dict json) :
  extends nf (ensure_critical_files (ensure_App_jsx nf)).
Proof.
  rewrite ensure_critical_files_eq, ensure_App_jsx_eq.
  repeat (eapply DictFacts.extends_trans;
          [|apply DictFacts.setdefault_extends]).
  apply DictFacts.extends_refl.
Qed.

(** Nothing received is lost or changed. *)
Lemma normalized_extends (fs : list (str * json)) :
  extends (copy_files fs) (normalized fs).
Proof.
  unfold normalized.
  eapply DictFacts.extends_trans; [apply react_step_extends|].
  apply ensure_extends.
Qed.

(** The four required files are there. *)
Lemma ensure_required (nf : Dict.dict json) (k : str) :
  In k required_files ->
  Dict.mem k (ensure_critical_files (ensure_App_jsx nf)) = true.
Proof.
  rewrite ensure_critical_files_eq, ensure_App_jsx_eq.
  intros [<-|[<-|[<-|[<-|[]]]]].
  - do 3 (eapply DictFacts.extends_mem;
          [apply DictFacts.setdefault_extends|]).
    apply DictFacts.setdefault_mem.
  - do 2 (eapply DictFacts.extends_mem;
          [apply DictFacts.setdefault_extends|]).
    apply DictFacts.setdefault_mem.
  - eapply DictFacts.extends_mem; [apply DictFacts.setdefault_extends|].
    apply DictFacts.setdefault_mem.
  - apply DictFacts.setdefault_mem.
Qed.

Lemma normalized_required (fs : list (str * json)) (k : str) :
  In k required_files -> Dict.mem k (normalized fs) = true.
Proof. apply ensure_required. Qed.

(** A map that has the four required files is left as it is. *)
Lemma ensure_fixpoint (nf : Dict.dict json) :
  (forall k, In k required_files -> Dict.mem k nf = true) ->
  ensure_critical_files (ensure_App_jsx nf) = nf.
Proof.
  intros H. rewrite ensure_critical_files_eq, ensure_App_jsx_eq.
  rewrite (DictFacts.setdefault_present _ App_jsx) by (apply H; simpl; tauto).
  rewrite (DictFacts.setdefault_present _ models_py) by (apply H; simpl; tauto).
  rewrite (DictFacts.setdefault_present _ main_py) by (apply H; simpl; tauto).
  rewrite (DictFacts.setdefault_present _ README_md) by (apply H; simpl; tauto).
  reflexivity.
Qed.

Lemma react_step_fixpoint (nf : Dict.dict json) :
  Dict.mem App_jsx nf = true -> react_step nf = nf.
Proof.
  intros H. unfold react_step.
  destruct (find_react_file nf) as [k|]; [|reflexivity].
  destruct (Dict.get k nf) as [v|]; [|reflexivity].
  destruct (Str.eqb k App_jsx); [reflexivity|].
  now apply DictFacts.setdefault_present.
Qed.

(** Copying a [dict] gives the same [dict]. *)
Lemma copy_files_NoDup_id (fs : list (str * json)) :
  NoDup (Dict.keys fs) -> copy_files fs = fs.
Proof.
  intros H. unfold copy_files. now rewrite DictFacts.fold_set_app.
Qed.

Lemma copy_files_NoDup (fs : list (str * json)) :
  NoDup (Dict.keys (copy_files fs)).
Proof. apply DictFacts.fold_set_NoDup. constructor. Qed.

(** *** From the decoded document to the result *)

Lemma build_result_object (m : Dict.dict json) (description : str)
      (fs : list (str * json)) :
  files_of m = JObject fs ->
  build_result (JObject m) description
  = Ok {| summary := summary_of m description; files := normalized fs |}.
Proof.
  intros H. unfold build_result, files_of in *. simpl. rewrite H. simpl.
  rewrite map_react_file_Ok. reflexivity.
Qed.

Lemma build_result_not_mapping (m : Dict.dict json) (description : str) :
  (forall fs, files_of m <> JObject fs) ->
  build_result (JObject m) description = Raise AttributeError.
Proof.
  intros H. unfold build_result, files_of in *. simpl.
  destruct (match Dict.get (lit "generated_files") m with
            | Some v => v
            | None => JObject Dict.empty
            end) eqn:E; try reflexivity.
  now destruct (H m0).
Qed.

Lemma build_result_not_object (data : json) (description : str) :
  (forall m, data <> JObject m) ->
  build_result data description = Raise AttributeError.
Proof.
  intros H. destruct data; try reflexivity. now destruct (H m).
Qed.

(** The members of a decoded object are decoded objects themselves. *)
Lemma wf_member (m : Dict.dict json) (k : str) (v : json) :
  wf_json (JObject m) -> Dict.get k m = Some v -> wf_json v.
Proof.
  intros Hwf Hget. inversion Hwf as [| | | | | |m' _ Hall]; subst.
  apply DictFacts.get_In in Hget. rewrite Forall_forall in Hall.
  now apply (Hall (k, v)).
Qed.

Lemma wf_files_of (m : Dict.dict json) (fs : list (str * json)) :
  wf_json (JObject m) -> files_of m = JObject fs -> NoDup (Dict.keys fs).
Proof.
  unfold files_of. intros Hwf H.
  destruct (Dict.get (lit "generated_files") m) as [v|] eqn:E.
  - subst v. apply wf_member with (k := lit "generated_files") (v := JObject fs) in Hwf;
      [|exact E].
    now inversion Hwf.
  - injection H as <-. constructor.
Qed.

(** *** The four required names are different names *)

(** Two different literals are different keys. *)
Ltac names_differ := apply StrFacts.eqb_neq; reflexivity.

(** *** What the result holds under the four required names *)

Lemma react_step_get_other (nf : Dict.dict json) (k : str) :
  k <> App_jsx -> Dict.get k (react_step nf) = Dict.get k nf.
Proof.
  intros Hk. unfold react_step.
  destruct (find_react_file nf) as [kk|]; [|reflexivity].
  destruct (Dict.get kk nf) as [v|]; [|reflexivity].
  destruct (Str.eqb kk App_jsx); [reflexivity|].
  apply DictFacts.setdefault_get_other. congruence.
Qed.

Lemma react_step_get_App_jsx (nf : Dict.dict json) :
  Dict.get App_jsx (react_step nf)
  = match Dict.get App_jsx nf with
    | Some v => Some v
    | None =>
        match find_react_file nf with
        | Some kk => Dict.get kk nf
        | None => None
        end
    end.
Proof.
  unfold react_step.
  destruct (find_react_file nf) as [kk|] eqn:E;
    [|now destruct (Dict.get App_jsx nf)].
  destruct (find_react_file_Some _ _ E) as (_ & v & Hv). rewrite Hv.
  destruct (Str.eqb kk App_jsx) eqn:Ek.
  - apply StrFacts.eqb_eq in Ek. subst kk. now rewrite Hv.
  - rewrite DictFacts.setdefault_get. now destruct (Dict.get App_jsx nf).
Qed.

Lemma normalized_get_App_jsx (fs : list (str * json)) :
  Dict.get App_jsx (normalized fs)
  = match Dict.get App_jsx (copy_files fs) with
    | Some v => Some v
    | None =>
        match find_react_file (copy_files fs) with
        | Some kk => Dict.get kk (copy_files fs)
        | None => Some (JString App_jsx_placeholder)
        end
    end.
Proof.
  unfold normalized. rewrite ensure_critical_files_eq, ensure_App_jsx_eq.
  rewrite !DictFacts.setdefault_get_other by names_differ.
  rewrite DictFacts.setdefault_get, react_step_get_App_jsx.
  destruct (Dict.get App_jsx (copy_files fs)); [reflexivity|].
  destruct (find_react_file (copy_files fs)) as [kk|] eqn:E; [|reflexivity].
  destruct (find_react_file_Some _ _ E) as (_ & v & Hv). now rewrite Hv.
Qed.

Lemma normalized_get_critical (fs : list (str * json)) (k ph : str) :
  Dict.get k critical_files = Some ph ->
  Dict.get k (normalized fs)
  = match Dict.get k (copy_files fs) with
    | Some v => Some v
    | None => Some (JString ph)
    end.
Proof.
  intros Hk.
  assert (Hin : In k (Dict.keys critical_files)).
  { apply DictFacts.mem_In, DictFacts.mem_get. eauto. }
  unfold normalized. rewrite ensure_critical_files_eq, ensure_App_jsx_eq.
  destruct Hin as [<-|[<-|[<-|[]]]]; injection Hk as <-.
  - rewrite !DictFacts.setdefault_get_other by names_differ.
    rewrite DictFacts.setdefault_get.
    rewrite DictFacts.setdefault_get_other by names_differ.
    rewrite react_step_get_other by names_differ. reflexivity.
  - rewrite !DictFacts.setdefault_get_other by names_differ.
    rewrite DictFacts.setdefault_get.
    rewrite !DictFacts.setdefault_get_other by names_differ.
    rewrite react_step_get_other by names_differ. reflexivity.
  - rewrite DictFacts.setdefault_get.
    rewrite !DictFacts.setdefault_get_other by names_differ.
    rewrite react_step_get_other by names_differ. reflexivity.
Qed.

(** The keys of the result are the received keys and the four required
    names. *)
Lemma normalized_keys (fs : list (str * json)) (k : str) :
  In k (Dict.keys (normalized fs)) ->
  In k (Dict.keys (copy_files fs)) \/ In k required_files.
Proof.
  unfold normalized. rewrite ensure_critical_files_eq, ensure_App_jsx_eq.
  intros H.
  repeat (apply DictFacts.setdefault_keys in H as [->|H];
          [right; simpl; tauto|]).
  unfold react_step in H.
  destruct (find_react_file (copy_files fs)) as [kk|]; [|now left].
  destruct (Dict.get kk (copy_files fs)) as [v|]; [|now left].
  destruct (Str.eqb kk App_jsx); [now left|].
  apply DictFacts.setdefault_keys in H as [->|H];
    [right; simpl; tauto | now left].
Qed.

Lemma normalized_NoDup (fs : list (str * json)) :
  NoDup (Dict.keys (normalized fs)).
Proof.
  unfold normalized. rewrite ensure_critical_files_eq, ensure_App_jsx_eq.
  repeat apply DictFacts.setdefault_NoDup.
  unfold react_step.
  destruct (find_react_file (copy_files fs)) as [kk|];
    [|apply copy_files_NoDup].
  destruct (Dict.get kk (copy_files fs)) as [v|]; [|apply copy_files_NoDup].
  destruct (Str.eqb kk App_jsx); [apply copy_files_NoDup|].
  apply DictFacts.setdefault_NoDup, copy_files_NoDup.
Qed.

(** The result is the received entries, in their order, followed by what
    was added. *)
Lemma normalized_appends (fs : list (str * json)) :
  copy_files fs = fs -> exists added, normalized fs = fs ++ added.
Proof.
  intros Hcopy. unfold normalized.
  rewrite ensure_critical_files_eq, ensure_App_jsx_eq, Hcopy.
  assert (Hreact : exists a0, react_step fs = fs ++ a0).
  { unfold react_step.
    destruct (find_react_file fs) as [kk|];
      [|exists []; now rewrite app_nil_r].
    destruct (Dict.get kk fs) as [v|]; [|exists []; now rewrite app_nil_r].
    destruct (Str.eqb kk App_jsx); [exists []; now rewrite app_nil_r|].
    apply DictFacts.setdefault_appends. }
  destruct Hreact as [a0 ->].
  repeat match goal with
         | |- context [setdefault ?k ?v (fs ++ ?a)] =>
             let a' := fresh "a" in
             destruct (DictFacts.setdefault_appends _ k v (fs ++ a)) as [a' ->];
             rewrite <- app_assoc
         end.
  eauto.
Qed.

(** A map that is its own copy and has the four required files is
    returned as it is. *)
Lemma normalized_fixpoint (fs : list (str * json)) :
  copy_files fs = fs ->
  (forall k, In k required_files -> Dict.mem k fs = true) ->
  normalized fs = fs.
Proof.
  intros Hcopy Hreq. unfold normalized. rewrite Hcopy.
  rewrite react_step_fixpoint by (apply Hreq; simpl; tauto).
  now apply ensure_fixpoint.
Qed.

(** *** [_parse_response] on a decoded object *)

Lemma parse_response_object (text description : str)
      (m : Dict.dict json) (fs : list (str * json)) :
  Json.loads (clean_response text) = Ok (JObject m) ->
  files_of m = JObject fs ->
  _parse_response text description
  = Ok {| summary := summary_of m description; files := normalized fs |}
  /\ copy_files fs = fs.
Proof.
  intros Hl Hf. split.
  - unfold _parse_response, try_body. rewrite Hl. simpl.
    now rewrite (build_result_object _ _ _ Hf).
  - apply copy_files_NoDup_id. apply wf_files_of with m; [|exact Hf].
    now apply JsonFacts.loads_wf in Hl.
Qed.

Lemma parse_response_Ok_inv (text description : str) (r : AnalysisResult) :
  _parse_response text description = Ok r ->
  exists m fs,
    Json.loads (clean_response text) = Ok (JObject m) /\
    files_of m = JObject fs /\
    r = {| summary := summary_of m description; files := normalized fs |}.
Proof.
  unfold _parse_response, try_body. intros H.
  destruct (Json.loads (clean_response text)) as [data|e] eqn:El; simpl in H.
  - destruct data as [| | | | | |m];
      try (rewrite build_result_not_object in H by discriminate;
           discriminate).
    destruct (files_of m) as [| | | | | |fs] eqn:Ef;
      try (rewrite build_result_not_mapping in H
             by (intros fs'; rewrite Ef; discriminate);
           discriminate).
    rewrite (build_result_object _ _ _ Ef) in H. injection H as <-.
    now exists m, fs.
  - destruct e; discriminate.
Qed.

End AIServiceFacts.

(* ================================================================== *)
(** * The claims *)

Import AIService StrFacts AIServiceFacts.

(** C1, as stated, fails: the text [{"generated_files": null}] decodes to a
    JSON object, yet [_parse_response] raises [ValueError] for it, because
    [None] has no [keys]. *)
Lemma parse_response_null_files_fails :
  (exists m, Json.loads (clean_response (dq "{'generated_files': null}"))
             = Ok (JObject m))
  /\ _parse_response (dq "{'generated_files': null}") (lit "A task tracker")
     = Raise (ValueError Failed_to_parse_AI_response).
Proof. split; [eexists|]; vm_compute; reflexivity. Qed.

(** C1 (amended): for every response text that, after fence stripping,
    decodes to a JSON object whose member [generated_files] is absent
    (then read as an empty mapping) or is itself an object [fs], and for
    every description, [_parse_response] returns a result whose [files]
    holds each of [App.jsx], [models.py], [main.py] and [README.md], with a
    value that is either a value of [fs] or the placeholder of that name. *)
Theorem parse_response_required_files
        (text description : str) (m : Dict.dict json) (fs : list (str * json)) :
  Json.loads (clean_response text) = Ok (JObject m) ->
  (Dict.get (lit "generated_files") m = None /\ fs = [])
  \/ Dict.get (lit "generated_files") m = Some (JObject fs) ->
  exists r,
    _parse_response text description = Ok r /\
    forall k, In k required_files ->
      exists v, Dict.get k (files r) = Some v /\
                ((exists k', Dict.get k' fs = Some v)
                 \/ option_map JString (placeholder_of k) = Some v).
Proof.
  intros Hl Hg.
  assert (Hf : files_of m = JObject fs).
  { unfold files_of. destruct Hg as [[-> ->]| ->]; reflexivity. }
  destruct (parse_response_object text description m fs Hl Hf) as [Hr Hcopy].
  eexists. split; [exact Hr|]. simpl.
  intros k [<-|Hk].
  - rewrite normalized_get_App_jsx, Hcopy.
    destruct (Dict.get App_jsx fs) as [v|] eqn:E.
    + exists v. split; [reflexivity|]. left. now exists App_jsx.
    + destruct (find_react_file fs) as [kk|] eqn:Ek.
      * destruct (find_react_file_Some _ _ Ek) as (_ & v & Hv).
        exists v. split; [exact Hv|]. left. now exists kk.
      * eexists. split; [reflexivity|]. now right.
  - assert (Hph : exists ph, Dict.get k critical_files = Some ph
                             /\ placeholder_of k = Some ph).
    { destruct Hk as [<-|[<-|[<-|[]]]]; eexists; split; reflexivity. }
    destruct Hph as (ph & Hph & Hpo).
    rewrite (normalized_get_critical fs k ph Hph), Hcopy, Hpo.
    destruct (Dict.get k fs) as [v|] eqn:E.
    + exists v. split; [reflexivity|]. left. now exists k.
    + eexists. split; [reflexivity|]. now right.
Qed.

Lemma parse_response_required_files_witness :
  exists r,
    _parse_response (dq "{'generated_files': {'main.py': 'x'}}") (lit "demo")
    = Ok r /\
    forall k, In k required_files ->
      exists v, Dict.get k (files r) = Some v /\
                ((exists k', Dict.get k' [(lit "main.py", JString (lit "x"))]
                             = Some v)
                 \/ option_map JString (placeholder_of k) = Some v).
Proof.
  apply (parse_response_required_files
           (dq "{'generated_files': {'main.py': 'x'}}") (lit "demo")
           [(lit "generated_files", JObject [(lit "main.py", JString (lit "x"))])]
           [(lit "main.py", JString (lit "x"))]).
  - vm_compute; reflexivity.
  - right. vm_compute; reflexivity.
Defined.

(** C2: a text that is not JSON after fence stripping, or whose JSON
    document is not an object (an array, a string, a number, a boolean or
    null), makes [_parse_response] raise [ValueError] - with the first
    message for a decoding error, with the second otherwise - and return no
    result; and whatever the text, [_parse_response] raises nothing but
    [ValueError]. *)
Theorem parse_response_malformed (text description : str) :
  (exists e, Json.loads (clean_response text) = Raise e)
  \/ (exists v, Json.loads (clean_response text) = Ok v
                /\ forall m, v <> JObject m) ->
  (exists msg, _parse_response text description = Raise (ValueError msg))
  /\ ((exists e, Json.loads (clean_response text) = Raise e) ->
      _parse_response text description
      = Raise (ValueError Invalid_JSON_response_from_AI))
  /\ ((exists v, Json.loads (clean_response text) = Ok v) ->
      _parse_response text description
      = Raise (ValueError Failed_to_parse_AI_response))
  /\ (forall r, _parse_response text description <> Ok r)
  /\ (forall text' description' e,
        _parse_response text' description' = Raise e ->
        exists msg, e = ValueError msg).
Proof.
  intros H.
  assert (Hany : forall text' description' e,
             _parse_response text' description' = Raise e ->
             exists msg, e = ValueError msg).
  { intros text' description' e. unfold _parse_response.
    destruct (try_body text' description') as [r|[| | |msg]];
      try discriminate; intros [= <-]; eauto. }
  unfold _parse_response, try_body.
  destruct H as [[e He]|(v & Hv & Hno)].
  - rewrite He. apply JsonFacts.loads_Raise in He. subst e. simpl.
    repeat split; eauto; try discriminate.
    intros [v Hv]. discriminate.
  - rewrite Hv. simpl. rewrite (build_result_not_object _ _ Hno).
    repeat split; eauto; try discriminate.
    intros [e He]. discriminate.
Qed.

Lemma parse_response_malformed_witness :
  (exists msg, _parse_response (dq "[1, 2]") (lit "demo")
               = Raise (ValueError msg))
  /\ ((exists e, Json.loads (clean_response (dq "[1, 2]")) = Raise e) ->
      _parse_response (dq "[1, 2]") (lit "demo")
      = Raise (ValueError Invalid_JSON_response_from_AI))
  /\ ((exists v, Json.loads (clean_response (dq "[1, 2]")) = Ok v) ->
      _parse_response (dq "[1, 2]") (lit "demo")
      = Raise (ValueError Failed_to_parse_AI_response))
  /\ (forall r, _parse_response (dq "[1, 2]") (lit "demo") <> Ok r)
  /\ (forall text' description' e,
        _parse_response text' description' = Raise e ->
        exists msg, e = ValueError msg).
Proof.
  apply (parse_response_malformed (dq "[1, 2]") (lit "demo")).
  right. exists (JArray [JInt 1; JInt 2]).
  split; [vm_compute; reflexivity | discriminate].
Defined.

(** C3: for every JSON document text [t], the text [t] put between an
    opening fence - with the language tag [json] or without a tag - and a
    closing fence, with any white space between the fences and [t] and
    around the whole, is cleaned to the same text as [t] alone, so
    [_parse_response] gives exactly the same outcome for both. *)
Theorem parse_response_fenced
        (t : str) (v : json) (opening o1 w1 w2 o2 description : str) :
  Json.loads t = Ok v ->
  In opening opening_fences ->
  all_space o1 -> all_space w1 -> all_space w2 -> all_space o2 ->
  clean_response (o1 ++ (opening ++ w1 ++ t ++ w2 ++ fence) ++ o2)
  = clean_response t
  /\ _parse_response (o1 ++ (opening ++ w1 ++ t ++ w2 ++ fence) ++ o2) description
     = _parse_response t description.
Proof.
  intros Hl Hop Ho1 Hw1 Hw2 Ho2.
  apply JsonFacts.loads_shape in Hl as (a & core & b & -> & Ha & Hb & Hcore).
  assert (Hclean :
            clean_response
              (o1 ++ (opening ++ w1 ++ (a ++ core ++ b) ++ w2 ++ fence) ++ o2)
            = clean_response (a ++ core ++ b)).
  { rewrite clean_response_fenced by assumption.
    now rewrite clean_response_plain. }
  split; [exact Hclean|].
  unfold _parse_response, try_body. now rewrite Hclean.
Qed.

Lemma parse_response_fenced_witness :
  clean_response ([] ++ (lit "```json" ++ nl ++ dq "{'a': 1}" ++ nl ++ fence) ++ [])
  = clean_response (dq "{'a': 1}")
  /\ _parse_response
       ([] ++ (lit "```json" ++ nl ++ dq "{'a': 1}" ++ nl ++ fence) ++ [])
       (lit "demo")
     = _parse_response (dq "{'a': 1}") (lit "demo").
Proof.
  apply (parse_response_fenced (dq "{'a': 1}")
           (JObject [(lit "a", JInt 1)]) (lit "```json") [] nl nl []
           (lit "demo")).
  - vm_compute; reflexivity.
  - left; reflexivity.
  - reflexivity.
  - reflexivity.
  - reflexivity.
  - reflexivity.
Defined.

(** A tag other than [json] is not among the markers lines 306-309 look
    for: only the three backticks are taken off, the tag stays in front of
    the document and decoding fails. *)
Lemma other_language_tag_stays :
  clean_response (lit "```js" ++ nl ++ dq "{'a': 1}" ++ nl ++ fence)
  = lit "js" ++ nl ++ dq "{'a': 1}"
  /\ _parse_response (lit "```js" ++ nl ++ dq "{'a': 1}" ++ nl ++ fence)
                     (lit "demo")
     = Raise (ValueError Invalid_JSON_response_from_AI).
Proof. split; vm_compute; reflexivity. Qed.

Lemma react_names_split : react_names = App_jsx :: variant_names.
Proof. reflexivity. Qed.

Lemma files_of_present (m : Dict.dict json) (v : json) :
  Dict.get (lit "generated_files") m = Some v -> files_of m = v.
Proof. unfold files_of. now intros ->. Qed.

Lemma mem_false_get {V} (k : str) (d : Dict.dict V) :
  Dict.mem k d = false -> Dict.get k d = None.
Proof. unfold Dict.mem. now destruct (Dict.get k d). Qed.

(** C4: when the received [generated_files] has one of the variant names
    [App.tsx], [app.jsx], [app.tsx], [App.js], [app.js] and not [App.jsx],
    the result has [App.jsx] with the content of a variant - the first of
    them in the iteration order of the mapping, hence the one present when
    there is only one - and every variant entry is still there with its
    content. *)
Theorem parse_response_variant
        (text description : str) (m : Dict.dict json) (fs : list (str * json)) :
  Json.loads (clean_response text) = Ok (JObject m) ->
  Dict.get (lit "generated_files") m = Some (JObject fs) ->
  Dict.mem App_jsx fs = false ->
  (exists k, In k variant_names /\ Dict.mem k fs = true) ->
  exists r k v,
    _parse_response text description = Ok r /\
    In k variant_names /\
    find_react_file fs = Some k /\
    Dict.get k fs = Some v /\
    Dict.get App_jsx (files r) = Some v /\
    (forall k' v', In k' variant_names ->
                   Dict.get k' fs = Some v' ->
                   Dict.get k' (files r) = Some v') /\
    (forall k0, In k0 variant_names -> Dict.mem k0 fs = true ->
                (forall k', In k' variant_names -> Dict.mem k' fs = true ->
                            k' = k0) ->
                k = k0).
Proof.
  intros Hl Hg Happ (k0 & Hk0 & Hmem0).
  apply files_of_present in Hg.
  destruct (parse_response_object text description m fs Hl Hg) as [Hr Hcopy].
  destruct (find_react_file fs) as [k|] eqn:Ek.
  - destruct (find_react_file_Some _ _ Ek) as (Hin & v & Hv).
    assert (Hvar : In k variant_names).
    { rewrite react_names_split in Hin. destruct Hin as [<-|Hin]; [|exact Hin].
      apply mem_false_get in Happ. congruence. }
    eexists; exists k, v. split; [exact Hr|]. simpl.
    repeat split; try assumption.
    + rewrite normalized_get_App_jsx, Hcopy.
      rewrite (mem_false_get _ _ Happ), Ek. exact Hv.
    + intros k' v' _ Hget. apply normalized_extends. now rewrite Hcopy.
    + intros k1 _ _ Honly. apply Honly; [exact Hvar|].
      apply DictFacts.mem_get. eauto.
  - exfalso. unfold find_react_file in Ek.
    apply find_none with (x := k0) in Ek.
    + assert (is_react_name k0 = true).
      { apply is_react_name_In. rewrite react_names_split. now right. }
      congruence.
    + now apply DictFacts.mem_In.
Qed.

Lemma parse_response_variant_witness :
  exists r k v,
    _parse_response (dq "{'generated_files': {'app.js': 'a', 'App.tsx': 'b'}}")
                    (lit "demo") = Ok r /\
    In k variant_names /\
    find_react_file [(lit "app.js", JString (lit "a"));
                     (lit "App.tsx", JString (lit "b"))] = Some k /\
    Dict.get k [(lit "app.js", JString (lit "a"));
                (lit "App.tsx", JString (lit "b"))] = Some v /\
    Dict.get App_jsx (files r) = Some v /\
    (forall k' v', In k' variant_names ->
                   Dict.get k' [(lit "app.js", JString (lit "a"));
                                (lit "App.tsx", JString (lit "b"))] = Some v' ->
                   Dict.get k' (files r) = Some v') /\
    (forall k0, In k0 variant_names ->
                Dict.mem k0 [(lit "app.js", JString (lit "a"));
                             (lit "App.tsx", JString (lit "b"))] = true ->
                (forall k', In k' variant_names ->
                            Dict.mem k' [(lit "app.js", JString (lit "a"));
                                         (lit "App.tsx", JString (lit "b"))]
                            = true ->
                            k' = k0) ->
                k = k0).
Proof.
  apply (parse_response_variant
           (dq "{'generated_files': {'app.js': 'a', 'App.tsx': 'b'}}")
           (lit "demo")
           [(lit "generated_files",
             JObject [(lit "app.js", JString (lit "a"));
                      (lit "App.tsx", JString (lit "b"))])]).
  - vm_compute; reflexivity.
  - vm_compute; reflexivity.
  - vm_compute; reflexivity.
  - exists (lit "app.js"). split; [simpl; tauto | vm_compute; reflexivity].
Defined.

(** C5: when the received [generated_files] (an empty mapping if the member
    is absent) has neither [App.jsx] nor any variant name, the result maps
    [App.jsx] to its placeholder; that placeholder is different from the
    placeholders of [models.py] and of [README.md]; and whatever the
    mapping holds, every entry it has - one with empty content too - keeps
    its content in the result: no placeholder replaces it. *)
Theorem parse_response_placeholder
        (text description : str) (m : Dict.dict json) (fs : list (str * json)) :
  Json.loads (clean_response text) = Ok (JObject m) ->
  files_of m = JObject fs ->
  exists r,
    _parse_response text description = Ok r /\
    ((forall k, In k react_names -> Dict.mem k fs = false) ->
     Dict.get App_jsx (files r) = Some (JString App_jsx_placeholder)) /\
    Some App_jsx_placeholder <> Dict.get models_py critical_files /\
    Some App_jsx_placeholder <> Dict.get README_md critical_files /\
    (forall k v, Dict.get k fs = Some v -> Dict.get k (files r) = Some v) /\
    (forall k, Dict.get k fs = Some (JString []) ->
               Dict.get k (files r) = Some (JString [])).
Proof.
  intros Hl Hf.
  destruct (parse_response_object text description m fs Hl Hf) as [Hr Hcopy].
  assert (Hkeep : forall k v, Dict.get k fs = Some v ->
                              Dict.get k (normalized fs) = Some v).
  { intros k v Hget. apply normalized_extends. now rewrite Hcopy. }
  eexists. split; [exact Hr|]. simpl.
  split; [|split; [|split; [|split]]].
  - intros Hnone. rewrite normalized_get_App_jsx, Hcopy.
    rewrite (mem_false_get _ _ (Hnone App_jsx (or_introl eq_refl))).
    destruct (find_react_file fs) as [kk|] eqn:Ek; [|reflexivity].
    destruct (find_react_file_Some _ _ Ek) as (Hin & v & Hv).
    apply Hnone, mem_false_get in Hin. congruence.
  - vm_compute. discriminate.
  - vm_compute. discriminate.
  - exact Hkeep.
  - intros k. apply Hkeep.
Qed.

Lemma parse_response_placeholder_witness :
  exists r,
    _parse_response (dq "{'generated_files': {'main.py': ''}}") (lit "demo")
    = Ok r /\
    ((forall k, In k react_names ->
                Dict.mem k [(lit "main.py", JString [])] = false) ->
     Dict.get App_jsx (files r) = Some (JString App_jsx_placeholder)) /\
    Some App_jsx_placeholder <> Dict.get models_py critical_files /\
    Some App_jsx_placeholder <> Dict.get README_md critical_files /\
    (forall k v, Dict.get k [(lit "main.py", JString [])] = Some v ->
                 Dict.get k (files r) = Some v) /\
    (forall k, Dict.get k [(lit "main.py", JString [])] = Some (JString []) ->
               Dict.get k (files r) = Some (JString [])).
Proof.
  apply (parse_response_placeholder
           (dq "{'generated_files': {'main.py': ''}}") (lit "demo")
           [(lit "generated_files", JObject [(lit "main.py", JString [])])]);
    vm_compute; reflexivity.
Defined.

(** C6: normalisation is idempotent on its own output.  If
    [_parse_response] returned [r], then for every response whose JSON
    object has a [generated_files] that is the mapping [files r] - the same
    keys with the same values - and [analysis_summary] equal to
    [summary r], [_parse_response] returns a result whose [files] is that
    [generated_files] itself: no key added, removed or moved, no value
    changed, no second placeholder; in particular it is [files r] when the
    payload lists the entries as [files r] does.  The summary is the
    same. *)
Theorem parse_response_idempotent
        (text description : str) (r : AnalysisResult)
        (text' description' : str) (m' : Dict.dict json)
        (fs' : list (str * json)) :
  _parse_response text description = Ok r ->
  Json.loads (clean_response text') = Ok (JObject m') ->
  Dict.get (lit "generated_files") m' = Some (JObject fs') ->
  (forall k, Dict.get k fs' = Dict.get k (files r)) ->
  Dict.get (lit "analysis_summary") m' = Some (summary r) ->
  exists r',
    _parse_response text' description' = Ok r' /\
    files r' = fs' /\
    (fs' = files r -> files r' = files r) /\
    (forall k, Dict.get k (files r') = Dict.get k (files r)) /\
    summary r' = summary r.
Proof.
  intros Hr Hl' Hg Hsame Hs.
  apply parse_response_Ok_inv in Hr as (m & fs & _ & _ & ->).
  simpl in Hsame, Hs. apply files_of_present in Hg.
  destruct (parse_response_object text' description' m' _ Hl' Hg)
    as [Hr' Hcopy].
  assert (Hfix : normalized fs' = fs').
  { apply normalized_fixpoint; [exact Hcopy|]. intros k Hk.
    unfold Dict.mem. rewrite Hsame.
    apply (normalized_required fs) in Hk. exact Hk. }
  eexists. split; [exact Hr'|]. simpl. rewrite Hfix.
  repeat split.
  - now intros <-.
  - exact Hsame.
  - unfold summary_of at 1. now rewrite Hs.
Qed.

Lemma parse_response_idempotent_witness :
  exists r',
    _parse_response
      (dq "{'analysis_summary': 's', 'generated_files': {'app.js': 'a', 'App.jsx': 'a', 'models.py': '# SQLAlchemy models\n# File not generated by AI', 'main.py': '# FastAPI application\n# File not generated by AI', 'README.md': '# README\n# File not generated by AI'}}")
      (lit "again") = Ok r' /\
    files r' = normalized [(lit "app.js", JString (lit "a"))] /\
    (normalized [(lit "app.js", JString (lit "a"))]
     = files {| summary := JString (lit "s");
                files := normalized [(lit "app.js", JString (lit "a"))] |} ->
     files r' = files {| summary := JString (lit "s");
                         files := normalized [(lit "app.js", JString (lit "a"))] |}) /\
    (forall k,
        Dict.get k (files r')
        = Dict.get k (files {| summary := JString (lit "s");
                               files := normalized [(lit "app.js", JString (lit "a"))] |})) /\
    summary r' = summary {| summary := JString (lit "s");
                            files := normalized [(lit "app.js", JString (lit "a"))] |}.
Proof.
  apply (parse_response_idempotent
           (dq "{'analysis_summary': 's', 'generated_files': {'app.js': 'a'}}")
           (lit "demo")
           {| summary := JString (lit "s");
              files := normalized [(lit "app.js", JString (lit "a"))] |}
           (dq "{'analysis_summary': 's', 'generated_files': {'app.js': 'a', 'App.jsx': 'a', 'models.py': '# SQLAlchemy models\n# File not generated by AI', 'main.py': '# FastAPI application\n# File not generated by AI', 'README.md': '# README\n# File not generated by AI'}}")
           (lit "again")
           [(lit "analysis_summary", JString (lit "s"));
            (lit "generated_files",
             JObject (normalized [(lit "app.js", JString (lit "a"))]))]
           (normalized [(lit "app.js", JString (lit "a"))]));
    vm_compute; reflexivity.
Defined.

(** C7: the worked example.  For the description [A task tracker] and the
    text made of the line [```json], the JSON text
    [{"analysis_summary":"s","generated_files":{"app.jsx":"code"}}] and the
    line [```], the result has the summary [s], [code] under [App.jsx] and
    under [app.jsx], and the placeholders under [models.py], [main.py] and
    [README.md]. *)
Theorem parse_response_task_tracker :
  exists r,
    _parse_response
      (lit "```json" ++ nl
       ++ dq "{'analysis_summary':'s','generated_files':{'app.jsx':'code'}}"
       ++ nl ++ lit "```")
      (lit "A task tracker") = Ok r /\
    summary r = JString (lit "s") /\
    Dict.get (lit "App.jsx") (files r) = Some (JString (lit "code")) /\
    Dict.get (lit "app.jsx") (files r) = Some (JString (lit "code")) /\
    Dict.get (lit "models.py") (files r)
    = option_map JString (Dict.get (lit "models.py") critical_files) /\
    Dict.get (lit "main.py") (files r)
    = option_map JString (Dict.get (lit "main.py") critical_files) /\
    Dict.get (lit "README.md") (files r)
    = option_map JString (Dict.get (lit "README.md") critical_files) /\
    Dict.keys (files r)
    = [lit "app.jsx"; lit "App.jsx"; lit "models.py"; lit "main.py";
       lit "README.md"].
Proof. eexists. vm_compute. repeat split. Qed.

(** C9: normalisation is deterministic.  Two runs of [_parse_response] on
    the same text and description, whatever they are, give the same
    outcome - the same summary and the same files; and when variant names
    are received without [App.jsx], the content stored under [App.jsx] is
    that of the first of them in the iteration order of the mapping (the
    order in which the keys first appear in the text), whatever comes
    after it. *)
Theorem parse_response_deterministic
        (text description : str) (m : Dict.dict json)
        (before after : list (str * json)) (k : str) (v : json) :
  Json.loads (clean_response text) = Ok (JObject m) ->
  files_of m = JObject (before ++ (k, v) :: after) ->
  In k variant_names ->
  (forall k', In k' (Dict.keys before) -> ~ In k' react_names) ->
  Dict.mem App_jsx after = false ->
  (forall (text0 description0 : str) (r1 r2 : result AnalysisResult),
      _parse_response text0 description0 = r1 ->
      _parse_response text0 description0 = r2 -> r1 = r2) /\
  exists r,
    _parse_response text description = Ok r /\
    find_react_file (before ++ (k, v) :: after) = Some k /\
    Dict.get App_jsx (files r) = Some v.
Proof.
  intros Hl Hf Hk Hbefore Hafter.
  split; [intros text0 description0 r1 r2 <- <-; reflexivity|].
  destruct (parse_response_object text description m _ Hl Hf) as [Hr Hcopy].
  assert (Hfind : find_react_file (before ++ (k, v) :: after) = Some k).
  { unfold find_react_file, Dict.keys. rewrite map_app. simpl.
    clear Hl Hf Hr Hcopy.
    induction before as [|[k0 v0] before IH]; simpl.
    - assert (is_react_name k = true) as ->; [|reflexivity].
      apply is_react_name_In. rewrite react_names_split. now right.
    - destruct (is_react_name k0) eqn:E.
      + apply is_react_name_In in E. exfalso.
        apply (Hbefore k0); [now left | exact E].
      + apply IH. intros k' Hk'. apply Hbefore. now right. }
  assert (Hnd : NoDup (Dict.keys (before ++ (k, v) :: after))).
  { rewrite <- Hcopy. apply copy_files_NoDup. }
  assert (Hget : Dict.get k (before ++ (k, v) :: after) = Some v).
  { apply DictFacts.In_get; [exact Hnd|]. apply in_or_app. right. now left. }
  assert (Hno : Dict.get App_jsx (before ++ (k, v) :: after) = None).
  { apply DictFacts.get_None. unfold Dict.keys. rewrite map_app, in_app_iff.
    simpl. intros [H|[H|H]].
    - apply (Hbefore App_jsx H). rewrite react_names_split. now left.
    - subst k. revert Hk. clear. intros Hk.
      assert (forallb (fun x => negb (Str.eqb x App_jsx)) variant_names = true)
        as Hall by reflexivity.
      rewrite forallb_forall in Hall. apply Hall in Hk.
      now rewrite eqb_refl in Hk.
    - apply DictFacts.mem_false in Hafter. now apply Hafter. }
  eexists. split; [exact Hr|]. split; [exact Hfind|]. simpl.
  now rewrite normalized_get_App_jsx, Hcopy, Hno, Hfind.
Qed.

Lemma parse_response_deterministic_witness :
  (forall (text0 description0 : str) (r1 r2 : result AnalysisResult),
      _parse_response text0 description0 = r1 ->
      _parse_response text0 description0 = r2 -> r1 = r2) /\
  exists r,
    _parse_response
      (dq "{'generated_files': {'x': '0', 'app.js': 'a', 'App.tsx': 'b'}}")
      (lit "demo") = Ok r /\
    find_react_file
      ([(lit "x", JString (lit "0"))]
         ++ (lit "app.js", JString (lit "a"))
         :: [(lit "App.tsx", JString (lit "b"))]) = Some (lit "app.js") /\
    Dict.get App_jsx (files r) = Some (JString (lit "a")).
Proof.
  apply (parse_response_deterministic
           (dq "{'generated_files': {'x': '0', 'app.js': 'a', 'App.tsx': 'b'}}")
           (lit "demo")
           [(lit "generated_files",
             JObject [(lit "x", JString (lit "0"));
                      (lit "app.js", JString (lit "a"));
                      (lit "App.tsx", JString (lit "b"))])]
           [(lit "x", JString (lit "0"))]
           [(lit "App.tsx", JString (lit "b"))]
           (lit "app.js") (JString (lit "a"))).
  - vm_compute; reflexivity.
  - vm_compute; reflexivity.
  - simpl; tauto.
  - intros k' [<-|[]]. vm_compute. intuition discriminate.
  - vm_compute; reflexivity.
Defined.

(** C10: normalisation only adds.  Every entry of the received
    [generated_files] is in the result under the same key with the same
    value, unchanged, and every key of the result is a received key or one
    of the four required names. *)
Theorem parse_response_frame
        (text description : str) (m : Dict.dict json) (fs : list (str * json)) :
  Json.loads (clean_response text) = Ok (JObject m) ->
  files_of m = JObject fs ->
  exists r,
    _parse_response text description = Ok r /\
    (forall k v, Dict.get k fs = Some v -> Dict.get k (files r) = Some v) /\
    (forall k, In k (Dict.keys (files r)) ->
               In k (Dict.keys fs) \/ In k required_files) /\
    (exists added, files r = fs ++ added).
Proof.
  intros Hl Hf.
  destruct (parse_response_object text description m fs Hl Hf) as [Hr Hcopy].
  eexists. split; [exact Hr|]. simpl. split; [|split].
  - intros k v Hget. apply normalized_extends. now rewrite Hcopy.
  - intros k Hk. apply normalized_keys in Hk. now rewrite Hcopy in Hk.
  - apply normalized_appends. exact Hcopy.
Qed.

Lemma parse_response_frame_witness :
  exists r,
    _parse_response (dq "{'generated_files': {'notes.txt': 'caf" ++ [233%N; 128512%N]
                     ++ dq " {`}'}}")
                    (lit "demo") = Ok r /\
    (forall k v,
        Dict.get k [(lit "notes.txt", JString (lit "caf" ++ [233%N; 128512%N] ++ lit " {`}"))]
        = Some v ->
        Dict.get k (files r) = Some v) /\
    (forall k, In k (Dict.keys (files r)) ->
               In k (Dict.keys [(lit "notes.txt",
                                 JString (lit "caf" ++ [233%N; 128512%N] ++ lit " {`}"))])
               \/ In k required_files) /\
    (exists added,
        files r
        = [(lit "notes.txt", JString (lit "caf" ++ [233%N; 128512%N] ++ lit " {`}"))]
            ++ added).
Proof.
  apply (parse_response_frame
           (dq "{'generated_files': {'notes.txt': 'caf" ++ [233%N; 128512%N]
                     ++ dq " {`}'}}")
           (lit "demo")
           [(lit "generated_files",
             JObject [(lit "notes.txt",
                       JString (lit "caf" ++ [233%N; 128512%N] ++ lit " {`}"))])]);
    vm_compute; reflexivity.
Defined.

(** C8: [get_example] on [food-pantry] returns the catalogue entry, whose
    [files] has [App.jsx], [models.py], [main.py] and [README.md] as it
    stands - the steps of the normaliser would leave it as it is; on every
    identifier other than [food-pantry], [library] and [clinic] it raises
    the [ValueError] of the catalogue; and [list_examples] returns these
    three identifiers. *)
Theorem get_example_catalogue
        (file_text : str -> str -> str) (example_id : str) :
  ~ In example_id [lit "food-pantry"; lit "library"; lit "clinic"] ->
  (exists r,
      ExampleService.get_example file_text (lit "food-pantry") = Ok r /\
      (forall k, In k required_files -> Dict.mem k (files r) = true) /\
      map_react_file (files r) = Ok (files r) /\
      ensure_critical_files (ensure_App_jsx (files r)) = files r)
  /\ ExampleService.get_example file_text example_id
     = Raise (ValueError Example_not_found)
  /\ ExampleService.list_examples file_text
     = [lit "food-pantry"; lit "library"; lit "clinic"].
Proof.
  intros Hid. split; [|split].
  - eexists. split; [reflexivity|]. simpl files.
    assert (Hall : forall k, In k required_files ->
                     Dict.mem k (ExampleService.example_files file_text
                                   (lit "food-pantry")) = true).
    { intros k [<-|[<-|[<-|[<-|[]]]]]; reflexivity. }
    split; [exact Hall|]. split.
    + rewrite map_react_file_Ok, react_step_fixpoint; [reflexivity|].
      apply Hall. simpl; tauto.
    + now apply ensure_fixpoint.
  - unfold ExampleService.get_example.
    assert (Dict.mem example_id (ExampleService.EXAMPLES file_text) = false)
      as ->; [|reflexivity].
    apply DictFacts.mem_false. exact Hid.
  - reflexivity.
Qed.

Lemma get_example_catalogue_witness :
  (exists r,
      ExampleService.get_example (fun _ _ => []) (lit "food-pantry") = Ok r /\
      (forall k, In k required_files -> Dict.mem k (files r) = true) /\
      map_react_file (files r) = Ok (files r) /\
      ensure_critical_files (ensure_App_jsx (files r)) = files r)
  /\ ExampleService.get_example (fun _ _ => []) (lit "unknown-id")
     = Raise (ValueError Example_not_found)
  /\ ExampleService.list_examples (fun _ _ => [])
     = [lit "food-pantry"; lit "library"; lit "clinic"].
Proof.
  apply (get_example_catalogue (fun _ _ => []) (lit "unknown-id")).
  vm_compute. intuition discriminate.
Defined.

(* ================================================================== *)
(** * Further properties of the code *)

(** ** More about [strip] *)

Module StripFacts.

Lemma lstrip_split (s : str) :
  exists w, s = w ++ lstrip s /\ all_space w.
Proof.
  induction s as [|c s (w & Hw & Hall)]; simpl.
  - now exists [].
  - destruct (is_space c) eqn:E.
    + exists (c :: w). unfold all_space in *. simpl. rewrite E, Hall.
      split; [congruence | reflexivity].
    + now exists [].
Qed.

Lemma lstrip_first (s : str) (c : N) (t : str) :
  lstrip s = c :: t -> is_space c = false.
Proof.
  induction s as [|a s IH]; simpl; [discriminate|].
  destruct (is_space a) eqn:E; [exact IH|]. now intros [= <- _].
Qed.

Lemma rstrip_split (s : str) :
  exists w, s = rstrip s ++ w /\ all_space w.
Proof.
  unfold rstrip. destruct (lstrip_split (rev s)) as (w & Hw & Hall).
  exists (rev w). split; [|now apply all_space_rev].
  rewrite <- rev_app_distr, <- Hw. now rewrite rev_involutive.
Qed.

Lemma rstrip_last_char (s t : str) (c : N) :
  rstrip s = t ++ [c] -> is_space c = false.
Proof.
  unfold rstrip. intros H. apply (f_equal (@rev N)) in H.
  rewrite rev_involutive, rev_app_distr in H. simpl in H.
  now apply lstrip_first in H.
Qed.

(** [strip] takes white space off both ends and nothing else. *)
Lemma strip_split (s : str) :
  exists w1 w2, s = w1 ++ strip s ++ w2 /\ all_space w1 /\ all_space w2.
Proof.
  unfold strip. destruct (lstrip_split s) as (w1 & H1 & Hall1).
  destruct (rstrip_split (lstrip s)) as (w2 & H2 & Hall2).
  exists w1, w2. split; [|now split].
  rewrite H1 at 1. now rewrite H2 at 1.
Qed.

Lemma strip_trimmed (s : str) : trimmed (strip s).
Proof.
  unfold strip. destruct (lstrip s) as [|c t] eqn:El; [now left|].
  pose proof (lstrip_first _ _ _ El) as Hc.
  destruct (rstrip_split (c :: t)) as (w & Hw & Hall).
  destruct (exists_last (l := rstrip (c :: t))) as (body & l & Hy).
  - intros Hnil. rewrite Hnil in Hw. simpl in Hw. subst w.
    unfold all_space in Hall. simpl in Hall.
    apply andb_true_iff in Hall as [Hsp _]. congruence.
  - right. pose proof (rstrip_last_char _ _ _ Hy) as Hl.
    exists c, l, body.
    rewrite Hy in Hw.
    destruct body as [|b body'].
    + exists []. simpl in Hw. injection Hw as -> _. now rewrite Hy.
    + exists (body' ++ [l]). simpl in Hw. injection Hw as -> _.
      now rewrite Hy.
Qed.

Lemma strip_idempotent (s : str) : strip (strip s) = strip s.
Proof.
  destruct (strip_trimmed s) as [->|H]; [reflexivity|].
  now apply StrFacts.strip_solid.
Qed.

Lemma strip_length (s : str) :
  (List.length (strip s) <= List.length s)%nat.
Proof.
  destruct (strip_split s) as (w1 & w2 & H & _).
  rewrite H at 2. rewrite !length_app. lia.
Qed.

Lemma Infix_refl (s : str) : Infix s s.
Proof. exists [], []. now rewrite app_nil_r. Qed.

Lemma Infix_trans (a b c : str) : Infix a b -> Infix b c -> Infix a c.
Proof.
  intros (p & q & ->) (p' & q' & ->). exists (p' ++ p), (q ++ q').
  now rewrite <- !app_assoc.
Qed.

Lemma Infix_strip (s : str) : Infix (strip s) s.
Proof. destruct (strip_split s) as (w1 & w2 & H & _). now exists w1, w2. Qed.

Lemma Infix_slice_from (n : nat) (s : str) : Infix (slice_from n s) s.
Proof.
  exists (firstn n s), []. unfold slice_from.
  now rewrite app_nil_r, firstn_skipn.
Qed.

Lemma Infix_slice_to_minus (n : nat) (s : str) : Infix (slice_to_minus n s) s.
Proof.
  exists [], (skipn (List.length s - n) s). unfold slice_to_minus. simpl.
  now rewrite firstn_skipn.
Qed.

Lemma Infix_In (a s : str) (c : N) : Infix a s -> In c a -> In c s.
Proof.
  intros (p & q & ->) H. rewrite !in_app_iff. tauto.
Qed.

End StripFacts.

(** X1: [clean_response] only takes characters off the two ends of the
    response: what it returns is a run of consecutive characters of the
    text it was given, so the inside of the document is never altered; and
    the text it returns never begins or ends with white space. *)
Theorem clean_response_infix_trimmed (response_text : str) :
  Infix (clean_response response_text) response_text
  /\ trimmed (clean_response response_text).
Proof.
  split; [|apply StripFacts.strip_trimmed].
  unfold clean_response.
  eapply StripFacts.Infix_trans; [apply StripFacts.Infix_strip|].
  eapply StripFacts.Infix_trans; [|apply (StripFacts.Infix_strip response_text)].
  set (t0 := strip response_text).
  assert (H1 : Infix (if startswith (lit "```json") t0
                      then slice_from 7 t0 else t0) t0).
  { destruct (startswith (lit "```json") t0);
      [apply StripFacts.Infix_slice_from | apply StripFacts.Infix_refl]. }
  set (t1 := if startswith (lit "```json") t0 then slice_from 7 t0 else t0) in *.
  assert (H2 : Infix (if startswith (lit "```") t1
                      then slice_from 3 t1 else t1) t1).
  { destruct (startswith (lit "```") t1);
      [apply StripFacts.Infix_slice_from | apply StripFacts.Infix_refl]. }
  set (t2 := if startswith (lit "```") t1 then slice_from 3 t1 else t1) in *.
  assert (H3 : Infix (if endswith (lit "```") t2
                      then slice_to_minus 3 t2 else t2) t2).
  { destruct (endswith (lit "```") t2);
      [apply StripFacts.Infix_slice_to_minus | apply StripFacts.Infix_refl]. }
  eapply StripFacts.Infix_trans; [exact H3|].
  eapply StripFacts.Infix_trans; [exact H2 | exact H1].
Qed.

(** X2: [validate_description] returns the description without the white
    space around it: the result is inside the input, is never longer (a
    description within the limit of 200 characters stays within it), has no
    white space at either end, and validating it again changes nothing. *)
Theorem validate_description_trims (v : str) :
  (exists w1 w2, v = w1 ++ AnalyzeRequest.validate_description v ++ w2
                 /\ all_space w1 /\ all_space w2)
  /\ trimmed (AnalyzeRequest.validate_description v)
  /\ (List.length (AnalyzeRequest.validate_description v) <= List.length v)%nat
  /\ AnalyzeRequest.validate_description (AnalyzeRequest.validate_description v)
     = AnalyzeRequest.validate_description v.
Proof.
  unfold AnalyzeRequest.validate_description.
  split; [apply StripFacts.strip_split|].
  split; [apply StripFacts.strip_trimmed|].
  split; [apply StripFacts.strip_length | apply StripFacts.strip_idempotent].
Qed.

(** ** [get_cors_origins] *)

Module CorsFacts.
Import Settings.

Lemma split_nonempty (sep : N) (s : str) : split sep s <> [].
Proof.
  destruct s as [|c s]; simpl; [discriminate|].
  destruct (N.eqb c sep); [discriminate|].
  destruct (split sep s); discriminate.
Qed.

(** Splitting a text at a separator splits what is before it and what is
    after it. *)
Lemma split_app (sep : N) (a b : str) :
  split sep (a ++ sep :: b) = split sep a ++ split sep b.
Proof.
  induction a as [|c a IH]; simpl.
  - now rewrite N.eqb_refl.
  - destruct (N.eqb c sep); [now rewrite IH|].
    rewrite IH. pose proof (split_nonempty sep a) as Hne.
    destruct (split sep a); [contradiction | reflexivity].
Qed.

Lemma split_free (sep : N) (s : str) : ~ In sep s -> split sep s = [s].
Proof.
  induction s as [|c s IH]; simpl; [reflexivity|]. intros Hnin.
  destruct (N.eqb_spec c sep) as [->|_]; [tauto|].
  rewrite IH by tauto. reflexivity.
Qed.

(** The pieces hold the characters of the text other than the separator. *)
Lemma split_pieces (sep : N) (s : str) (c : N) :
  (exists piece, In piece (split sep s) /\ In c piece) <-> In c s /\ c <> sep.
Proof.
  induction s as [|a s IH]; simpl.
  - split; [intros (p & [<-|[]] & []) | tauto].
  - destruct (N.eqb_spec a sep) as [->|Hne].
    + split.
      * intros (p & [<-|Hp] & Hc); [destruct Hc|].
        assert (In c s /\ c <> sep) by (apply IH; eauto). tauto.
      * intros [[->|Hc] Hsep]; [congruence|].
        destruct (proj2 IH (conj Hc Hsep)) as (p & Hp & Hcp).
        exists p. split; [now right | exact Hcp].
    + pose proof (split_nonempty sep s) as Hnil.
      destruct (split sep s) as [|piece pieces]; [contradiction|].
      split.
      * intros (p & [<-|Hp] & Hc).
        -- destruct Hc as [<-|Hc]; [tauto|].
           assert (In c s /\ c <> sep)
             by (apply IH; exists piece; split; [now left | exact Hc]).
           tauto.
        -- assert (In c s /\ c <> sep)
             by (apply IH; exists p; split; [now right | exact Hc]).
           tauto.
      * intros [[<-|Hc] Hsep].
        -- exists (a :: piece). split; now left.
        -- destruct (proj2 IH (conj Hc Hsep)) as (p & [<-|Hp] & Hcp).
           ++ exists (a :: piece). split; [now left | now right].
           ++ exists p. split; [now right | exact Hcp].
Qed.

Lemma split_piece_free (sep : N) (s piece : str) :
  In piece (split sep s) -> ~ In sep piece.
Proof.
  intros Hp Hsep.
  assert (In sep s /\ sep <> sep) by (apply split_pieces; eauto). tauto.
Qed.

(** Joining the pieces with the separator gives the text back. *)
Lemma join_split (sep : N) (s : str) : join [sep] (split sep s) = s.
Proof.
  induction s as [|c s IH]; [reflexivity|]. simpl.
  pose proof (split_nonempty sep s) as Hnil.
  destruct (N.eqb_spec c sep) as [->|_].
  - destruct (split sep s) as [|piece pieces]; [contradiction|].
    change (join [sep] ([] :: piece :: pieces))
      with (sep :: join [sep] (piece :: pieces)).
    now rewrite IH.
  - destruct (split sep s) as [|piece pieces]; [contradiction|].
    destruct pieces as [|piece' pieces].
    + simpl in *. now rewrite IH.
    + change (join [sep] ((c :: piece) :: piece' :: pieces))
        with (c :: piece ++ [sep] ++ join [sep] (piece' :: pieces)).
      change (join [sep] (piece :: piece' :: pieces))
        with (piece ++ [sep] ++ join [sep] (piece' :: pieces)) in IH.
      now rewrite IH.
Qed.

Lemma In_join_Infix (sep : str) (l : list str) (piece : str) :
  In piece l -> Infix piece (join sep l).
Proof.
  induction l as [|x rest IH]; [intros []|].
  destruct rest as [|y rest].
  - intros [<-|[]]. apply StripFacts.Infix_refl.
  - change (join sep (x :: y :: rest)) with (x ++ sep ++ join sep (y :: rest)).
    intros [<-|Hin].
    + now exists [], (sep ++ join sep (y :: rest)).
    + destruct (IH Hin) as (p & q & ->).
      exists (x ++ sep ++ p), q. now rewrite <- !app_assoc.
Qed.

Lemma get_cors_origins_app (a b : str) :
  get_cors_origins (a ++ [44%N] ++ b)
  = get_cors_origins a ++ get_cors_origins b.
Proof.
  unfold get_cors_origins. simpl app.
  now rewrite split_app, filter_app, map_app.
Qed.

Lemma get_cors_origins_join (l : list str) :
  get_cors_origins (join [44%N] l) = List.concat (List.map get_cors_origins l).
Proof.
  induction l as [|x rest IH]; [reflexivity|].
  destruct rest as [|y rest].
  - simpl. now rewrite app_nil_r.
  - change (join [44%N] (x :: y :: rest))
      with (x ++ [44%N] ++ join [44%N] (y :: rest)).
    rewrite get_cors_origins_app, IH. reflexivity.
Qed.

Lemma space_not_comma (w : str) : all_space w -> comma_free w.
Proof.
  unfold all_space, comma_free. rewrite forallb_forall. intros H Hin.
  apply H in Hin. discriminate.
Qed.

Lemma get_cors_origins_padded (w1 o w2 : str) :
  all_space w1 -> all_space w2 -> solid o -> comma_free o ->
  get_cors_origins (w1 ++ o ++ w2) = [o].
Proof.
  intros H1 H2 Hs Hc. unfold get_cors_origins.
  rewrite split_free.
  - pose proof (StrFacts.strip_padded _ _ _ H1 H2 Hs) as Hstrip.
    assert (Ht : truthy o = true)
      by (destruct Hs as (f & l & body & tail & -> & _); reflexivity).
    simpl. rewrite Hstrip, Ht. simpl. now rewrite Hstrip.
  - rewrite !in_app_iff. intros [H|[H|H]].
    + now apply (space_not_comma _ H1).
    + now apply Hc.
    + now apply (space_not_comma _ H2).
Qed.

Lemma strip_all_space (w : str) : all_space w -> strip w = [].
Proof.
  intros Hall. destruct (StripFacts.strip_trimmed w) as [H|H]; [exact H|].
  destruct H as (f & l & body & tail & Hf & _ & Hsf & _).
  assert (Hin : In f w).
  { apply StripFacts.Infix_In with (strip w);
      [apply StripFacts.Infix_strip | rewrite Hf; now left]. }
  unfold all_space in Hall. rewrite forallb_forall in Hall.
  apply Hall in Hin. congruence.
Qed.

Lemma strip_nil_all_space (w : str) : strip w = [] -> all_space w.
Proof.
  intros H. destruct (StripFacts.strip_split w) as (w1 & w2 & Hw & H1 & H2).
  rewrite H in Hw. simpl in Hw. subst w.
  unfold all_space in *. now rewrite forallb_app, H1, H2.
Qed.

End CorsFacts.


(** X3: every origin [get_cors_origins] returns is usable as it stands: it
    is not empty, has no white space at either end, contains no comma, and
    is a run of consecutive characters of the configured text. *)
Theorem get_cors_origins_wellformed (CORS_ORIGINS origin : str) :
  In origin (Settings.get_cors_origins CORS_ORIGINS) ->
  origin <> [] /\ solid origin /\ comma_free origin
  /\ Infix origin CORS_ORIGINS.
Proof.
  unfold Settings.get_cors_origins. intros H.
  apply in_map_iff in H as (piece & <- & Hp).
  apply filter_In in Hp as [Hp Htrue].
  assert (Hsolid : solid (strip piece)).
  { destruct (StripFacts.strip_trimmed piece) as [E|E]; [|exact E].
    rewrite E in Htrue. discriminate. }
  split; [|split; [exact Hsolid|split]].
  - destruct Hsolid as (f & l & body & tail & -> & _). discriminate.
  - intros Hin. apply (CorsFacts.split_piece_free 44%N CORS_ORIGINS piece Hp).
    apply StripFacts.Infix_In with (strip piece);
      [apply StripFacts.Infix_strip | exact Hin].
  - apply StripFacts.Infix_trans with piece; [apply StripFacts.Infix_strip|].
    pose proof (CorsFacts.In_join_Infix [44%N] _ _ Hp) as Hin.
    now rewrite CorsFacts.join_split in Hin.
Qed.

Lemma get_cors_origins_wellformed_witness :
  lit "http://a.test" <> [] /\ solid (lit "http://a.test")
  /\ comma_free (lit "http://a.test")
  /\ Infix (lit "http://a.test") (lit " http://a.test , ,http://b.test").
Proof.
  apply (get_cors_origins_wellformed (lit " http://a.test , ,http://b.test")
                                     (lit "http://a.test")).
  vm_compute. tauto.
Defined.

(** X4: [get_cors_origins] reads back a list of origins written with
    commas between them, whatever white space surrounds each origin:
    origins that have no comma and no white space at their ends are
    returned exactly, in their order. *)
Theorem get_cors_origins_join_roundtrip (items : list (str * str * str)) :
  Forall (fun item => let '(w1, origin, w2) := item in
                      all_space w1 /\ all_space w2
                      /\ solid origin /\ comma_free origin) items ->
  Settings.get_cors_origins
    (join [44%N]
          (List.map (fun item => let '(w1, origin, w2) := item in
                                 w1 ++ origin ++ w2) items))
  = List.map (fun item => let '(_, origin, _) := item in origin) items.
Proof.
  intros H. rewrite CorsFacts.get_cors_origins_join.
  induction H as [|[[w1 origin] w2] items (H1 & H2 & Hs & Hc) _ IH];
    [reflexivity|].
  simpl. rewrite IH.
  now rewrite (CorsFacts.get_cors_origins_padded _ _ _ H1 H2 Hs Hc).
Qed.

Lemma get_cors_origins_join_roundtrip_witness :
  Settings.get_cors_origins
    (join [44%N]
          (List.map (fun item => let '(w1, origin, w2) := item in
                                 w1 ++ origin ++ w2)
                    [(lit " ", lit "http://a.test", []);
                     ([], lit "https://b.test:3000", lit "  ")]))
  = List.map (fun item => let '(_, origin, _) := item in origin)
             [(lit " ", lit "http://a.test", []);
              ([], lit "https://b.test:3000", lit "  ")].
Proof.
  apply (get_cors_origins_join_roundtrip
           [(lit " ", lit "http://a.test", []);
            ([], lit "https://b.test:3000", lit "  ")]).
  repeat constructor; try (vm_compute; reflexivity);
    try (vm_compute; intuition discriminate).
  - exists 104%N, 116%N, (lit "http://a.tes"), (lit "ttp://a.test").
    repeat split.
  - exists 104%N, 48%N, (lit "https://b.test:300"), (lit "ttps://b.test:3000").
    repeat split.
Defined.

(** X5: the origins of two configured texts written one after the other
    with a comma between them are the origins of the first followed by the
    origins of the second; and writing the returned origins with commas and
    reading them again gives the same list. *)
Theorem get_cors_origins_compose (a b : str) :
  Settings.get_cors_origins (a ++ [44%N] ++ b)
  = Settings.get_cors_origins a ++ Settings.get_cors_origins b
  /\ Settings.get_cors_origins (join [44%N] (Settings.get_cors_origins a))
     = Settings.get_cors_origins a.
Proof.
  split; [apply CorsFacts.get_cors_origins_app|].
  rewrite CorsFacts.get_cors_origins_join.
  assert (H : forall l,
             (forall o, In o l -> solid o /\ comma_free o) ->
             List.concat (List.map Settings.get_cors_origins l) = l).
  { induction l as [|o l IH]; intros Hl; [reflexivity|]. simpl.
    destruct (Hl o (or_introl eq_refl)) as [Hs Hc].
    assert (Ho : Settings.get_cors_origins ([] ++ o ++ []) = [o])
      by (apply CorsFacts.get_cors_origins_padded; auto; reflexivity).
    simpl in Ho. rewrite app_nil_r in Ho. rewrite Ho, IH; [reflexivity|].
    intros o' Ho'. apply Hl. now right. }
  apply H. intros o Ho.
  apply get_cors_origins_wellformed in Ho. tauto.
Qed.

(** X6: [get_cors_origins] returns no origin exactly when the configured
    text is made of commas and white space only (the empty text
    included). *)
Theorem get_cors_origins_empty (CORS_ORIGINS : str) :
  Settings.get_cors_origins CORS_ORIGINS = []
  <-> (forall c, In c CORS_ORIGINS -> c = 44%N \/ is_space c = true).
Proof.
  unfold Settings.get_cors_origins. split.
  - intros H c Hc.
    destruct (N.eq_dec c 44) as [->|Hne]; [now left|]. right.
    destruct (proj2 (CorsFacts.split_pieces 44%N CORS_ORIGINS c) (conj Hc Hne))
      as (piece & Hp & Hcp).
    assert (Hstrip : strip piece = []).
    { destruct (strip piece) as [|x t] eqn:E; [reflexivity|]. exfalso.
      assert (Hin : In piece
                       (List.filter (fun origin => Settings.truthy (strip origin))
                                    (Settings.split 44 CORS_ORIGINS))).
      { apply filter_In. split; [exact Hp|]. now rewrite E. }
      apply (in_map (fun origin => strip origin)) in Hin.
      rewrite H in Hin. destruct Hin. }
    apply CorsFacts.strip_nil_all_space in Hstrip.
    unfold all_space in Hstrip. rewrite forallb_forall in Hstrip. auto.
  - intros H.
    assert (Hnone : List.filter (fun origin => Settings.truthy (strip origin))
                                (Settings.split 44 CORS_ORIGINS) = []).
    { destruct (List.filter _ _) as [|piece rest] eqn:E; [reflexivity|].
      exfalso.
      assert (Hin : In piece (piece :: rest)) by now left.
      rewrite <- E in Hin. apply filter_In in Hin as [Hp Htrue].
      assert (Hall : all_space piece).
      { unfold all_space. apply forallb_forall. intros c Hc.
        assert (Hcs : In c CORS_ORIGINS /\ c <> 44%N)
          by (apply (CorsFacts.split_pieces 44%N); eauto).
        destruct (H c (proj1 Hcs)) as [->|Hsp]; [tauto | exact Hsp]. }
      rewrite (CorsFacts.strip_all_space _ Hall) in Htrue. discriminate. }
    now rewrite Hnone.
Qed.

(** ** More about [_parse_response] *)

Module FenceFacts.

(** An opening fence without a closing one. *)
Lemma clean_response_opening_only (o1 opening w1 a core b o2 : str) :
  In opening opening_fences ->
  all_space o1 -> all_space w1 -> all_space a ->
  all_space b -> all_space o2 ->
  fence_free core ->
  clean_response (o1 ++ (opening ++ w1 ++ (a ++ core ++ b)) ++ o2) = core.
Proof.
  intros Hop Ho1 Hw1 Ha Hb Ho2 Hcore.
  pose proof (fence_free_solid _ Hcore) as Hsolid.
  destruct Hcore
    as (f & l & body & tail & Hf & Hl & (Hsf & Hf96 & Hf106) & (Hsl & Hl96)).
  set (Y := (w1 ++ a) ++ core).
  assert (HWa : all_space (w1 ++ a)) by now apply all_space_app.
  assert (HbO : all_space (b ++ o2)) by now apply all_space_app.
  assert (Htext : o1 ++ (opening ++ w1 ++ (a ++ core ++ b)) ++ o2
                  = o1 ++ (opening ++ Y) ++ (b ++ o2)).
  { subst Y. now rewrite <- !app_assoc. }
  assert (HYf : Y = (w1 ++ a) ++ f :: tail) by (subst Y; now rewrite Hf).
  assert (HYl : Y = ((w1 ++ a) ++ body) ++ [l])
    by (subst Y; rewrite Hl; now rewrite <- !app_assoc).
  assert (Hno : startswith (lit "```") Y = false).
  { rewrite HYf. now apply startswith_padded. }
  assert (Hend : endswith (lit "```") Y = false).
  { rewrite HYl. apply (StrFacts.endswith_last 96 l [96; 96]%N). congruence. }
  assert (Hstrip : strip Y = core).
  { subst Y. replace ((w1 ++ a) ++ core) with ((w1 ++ a) ++ core ++ [])
      by now rewrite app_nil_r.
    apply (StrFacts.strip_padded (w1 ++ a) core []); auto. reflexivity. }
  assert (Hsolid' : solid (opening ++ Y)).
  { exists 96%N, l, (opening ++ (w1 ++ a) ++ body).
    destruct Hop as [<-|[<-|[]]]; eexists;
      (split; [reflexivity|]); (split; [|split; [reflexivity | exact Hsl]]);
      rewrite HYl; rewrite <- !app_assoc; reflexivity. }
  unfold clean_response. rewrite Htext.
  rewrite (StrFacts.strip_padded _ _ _ Ho1 HbO Hsolid').
  destruct Hop as [<-|[<-|[]]].
  - rewrite (StrFacts.startswith_app (lit "```json") Y).
    assert (H7 : slice_from 7 (lit "```json" ++ Y) = Y)
      by apply (StrFacts.slice_from_app (lit "```json") Y).
    now rewrite H7, Hno, Hend.
  - assert (Hj : startswith (lit "```json") (lit "```" ++ Y) = false).
    { change (startswith (lit "json") Y = false).
      rewrite HYf. now apply startswith_padded. }
    rewrite Hj, (StrFacts.startswith_app (lit "```") Y).
    assert (H3 : slice_from 3 (lit "```" ++ Y) = Y)
      by apply (StrFacts.slice_from_app (lit "```") Y).
    now rewrite H3, Hend.
Qed.

(** A closing fence without an opening one. *)
Lemma clean_response_closing_only (o1 a core b w2 o2 : str) :
  all_space o1 -> all_space a -> all_space b ->
  all_space w2 -> all_space o2 ->
  fence_free core ->
  clean_response (o1 ++ ((a ++ core ++ b) ++ w2 ++ fence) ++ o2) = core.
Proof.
  intros Ho1 Ha Hb Hw2 Ho2 Hcore.
  pose proof (fence_free_solid _ Hcore) as Hsolid.
  destruct Hcore
    as (f & l & body & tail & Hf & Hl & (Hsf & Hf96 & Hf106) & (Hsl & Hl96)).
  set (X := (core ++ (b ++ w2)) ++ fence).
  assert (HOa : all_space (o1 ++ a)) by now apply all_space_app.
  assert (HbW : all_space (b ++ w2)) by now apply all_space_app.
  assert (Htext : o1 ++ ((a ++ core ++ b) ++ w2 ++ fence) ++ o2
                  = (o1 ++ a) ++ X ++ o2).
  { subst X. now rewrite <- !app_assoc. }
  assert (HXf : X = f :: (tail ++ (b ++ w2)) ++ fence)
    by (subst X; now rewrite Hf).
  assert (Hsolid' : solid X).
  { exists f, 96%N, (core ++ (b ++ w2) ++ [96; 96]%N),
      ((tail ++ (b ++ w2)) ++ fence).
    split; [exact HXf|]. split; [|now split].
    subst X. rewrite <- !app_assoc. reflexivity. }
  assert (H1 : startswith (lit "```json") X = false).
  { rewrite HXf. apply StrFacts.startswith_head.
    intros E. apply Hf96. now rewrite <- E. }
  assert (H2 : startswith (lit "```") X = false).
  { rewrite HXf. apply StrFacts.startswith_head.
    intros E. apply Hf96. now rewrite <- E. }
  assert (H3 : endswith (lit "```") X = true)
    by (subst X; apply StrFacts.endswith_app).
  assert (Hcut : slice_to_minus 3 X = core ++ (b ++ w2))
    by (subst X; apply (StrFacts.slice_to_minus_app fence)).
  unfold clean_response. rewrite Htext.
  rewrite (StrFacts.strip_padded _ _ _ HOa Ho2 Hsolid').
  rewrite H1, H2, H3, Hcut.
  apply (StrFacts.strip_padded [] core (b ++ w2)); auto. reflexivity.
Qed.

End FenceFacts.

(** X7: a fence need not be complete.  For every JSON document text [t],
    the text [t] preceded by an opening fence (with the tag [json] or
    without) and not followed by a closing one, and the text [t] followed
    by a closing fence and not preceded by an opening one - with any white
    space around - are cleaned to the same text as [t] alone, so
    [_parse_response] gives the same outcome. *)
Theorem parse_response_half_fenced
        (t : str) (v : json) (opening o1 w1 w2 o2 description : str) :
  Json.loads t = Ok v ->
  In opening opening_fences ->
  all_space o1 -> all_space w1 -> all_space w2 -> all_space o2 ->
  _parse_response (o1 ++ (opening ++ w1 ++ t) ++ o2) description
  = _parse_response t description
  /\ _parse_response (o1 ++ (t ++ w2 ++ fence) ++ o2) description
     = _parse_response t description.
Proof.
  intros Hl Hop Ho1 Hw1 Hw2 Ho2.
  apply JsonFacts.loads_shape in Hl as (a & core & b & -> & Ha & Hb & Hcore).
  assert (H1 : clean_response (o1 ++ (opening ++ w1 ++ (a ++ core ++ b)) ++ o2)
               = clean_response (a ++ core ++ b)).
  { rewrite FenceFacts.clean_response_opening_only by assumption.
    now rewrite clean_response_plain. }
  assert (H2 : clean_response (o1 ++ ((a ++ core ++ b) ++ w2 ++ fence) ++ o2)
               = clean_response (a ++ core ++ b)).
  { rewrite FenceFacts.clean_response_closing_only by assumption.
    now rewrite clean_response_plain. }
  unfold _parse_response, try_body. now rewrite H1, H2.
Qed.

Lemma parse_response_half_fenced_witness :
  _parse_response ([] ++ (lit "```json" ++ nl ++ dq "{'a': 1}") ++ nl)
                  (lit "demo")
  = _parse_response (dq "{'a': 1}") (lit "demo")
  /\ _parse_response ([] ++ (dq "{'a': 1}" ++ nl ++ fence) ++ nl) (lit "demo")
     = _parse_response (dq "{'a': 1}") (lit "demo").
Proof.
  apply (parse_response_half_fenced (dq "{'a': 1}")
           (JObject [(lit "a", JInt 1)]) (lit "```json") [] nl nl nl
           (lit "demo")).
  - vm_compute; reflexivity.
  - left; reflexivity.
  - reflexivity.
  - reflexivity.
  - reflexivity.
  - reflexivity.
Defined.

Module ResultFacts.

Lemma keys_setdefault {V} (k : str) (v : V) (d : Dict.dict V) :
  Dict.keys (setdefault k v d)
  = Dict.keys d ++ (if Dict.mem k d then [] else [k]).
Proof.
  unfold setdefault. destruct (Dict.mem k d) eqn:E; simpl.
  - now rewrite app_nil_r.
  - now apply DictFacts.keys_set_absent.
Qed.

Lemma mem_setdefault_other {V} (k k' : str) (v : V) (d : Dict.dict V) :
  k <> k' -> Dict.mem k' (setdefault k v d) = Dict.mem k' d.
Proof.
  intros H. unfold Dict.mem. now rewrite DictFacts.setdefault_get_other.
Qed.

(** After lines 343-353 [App.jsx] is there, last if it was not received;
    the other keys are as received. *)
Lemma App_jsx_stage (fs : Dict.dict json) :
  Dict.keys (ensure_App_jsx (react_step fs))
  = Dict.keys fs ++ (if Dict.mem App_jsx fs then [] else [App_jsx])
  /\ forall k, k <> App_jsx ->
               Dict.mem k (ensure_App_jsx (react_step fs)) = Dict.mem k fs.
Proof.
  rewrite ensure_App_jsx_eq. split.
  - rewrite keys_setdefault. unfold react_step.
    destruct (find_react_file fs) as [kk|]; [|reflexivity].
    destruct (Dict.get kk fs) as [v|]; [|reflexivity].
    destruct (Str.eqb kk App_jsx); [reflexivity|].
    rewrite keys_setdefault, DictFacts.setdefault_mem.
    now rewrite app_nil_r.
  - intros k Hk. rewrite mem_setdefault_other by congruence.
    unfold Dict.mem. now rewrite react_step_get_other.
Qed.

Lemma normalized_keys_exact (fs : list (str * json)) :
  copy_files fs = fs ->
  Dict.keys (normalized fs) = Dict.keys fs ++ missing_required fs.
Proof.
  intros Hcopy. unfold normalized. rewrite Hcopy.
  destruct (App_jsx_stage fs) as [Hkeys Hmem].
  set (d1 := ensure_App_jsx (react_step fs)) in *.
  rewrite ensure_critical_files_eq.
  rewrite !keys_setdefault.
  rewrite !mem_setdefault_other by names_differ.
  rewrite !Hmem by names_differ. rewrite Hkeys.
  unfold missing_required, required_files. simpl.
  destruct (Dict.mem App_jsx fs), (Dict.mem models_py fs),
    (Dict.mem main_py fs), (Dict.mem README_md fs);
    simpl; rewrite <- ?app_assoc; reflexivity.
Qed.

End ResultFacts.

(** X8: a response whose JSON object has a [generated_files] member that is
    not itself an object - null, a list, a string, a number, a boolean - is
    refused: [_parse_response] raises the [ValueError] with the message
    [Failed to parse AI response], whatever else the object holds. *)
Theorem parse_response_files_not_mapping
        (text description : str) (m : Dict.dict json) (v : json) :
  Json.loads (clean_response text) = Ok (JObject m) ->
  Dict.get (lit "generated_files") m = Some v ->
  (forall fs, v <> JObject fs) ->
  _parse_response text description
  = Raise (ValueError Failed_to_parse_AI_response).
Proof.
  intros Hl Hg Hv. unfold _parse_response, try_body. rewrite Hl. simpl.
  rewrite build_result_not_mapping; [reflexivity|].
  intros fs. rewrite (files_of_present _ _ Hg). apply Hv.
Qed.

Lemma parse_response_files_not_mapping_witness :
  _parse_response
    (dq "{'analysis_summary': 's', 'generated_files': ['App.jsx', 'main.py']}")
    (lit "demo")
  = Raise (ValueError Failed_to_parse_AI_response).
Proof.
  apply (parse_response_files_not_mapping
           (dq "{'analysis_summary': 's', 'generated_files': ['App.jsx', 'main.py']}")
           (lit "demo")
           [(lit "analysis_summary", JString (lit "s"));
            (lit "generated_files",
             JArray [JString (lit "App.jsx"); JString (lit "main.py")])]
           (JArray [JString (lit "App.jsx"); JString (lit "main.py")])).
  - vm_compute; reflexivity.
  - vm_compute; reflexivity.
  - discriminate.
Defined.

(** X9: the description is used for the fallback summary and for nothing
    else.  With another description [_parse_response] raises the same
    exception or returns the same files; the summary is the member
    [analysis_summary] of the document when there is one (whatever its
    type), and otherwise the text [Generated application based on: ]
    followed by the description. *)
Theorem parse_response_description (text d1 d2 : str) :
  (forall e, _parse_response text d1 = Raise e ->
             _parse_response text d2 = Raise e)
  /\ (forall r1, _parse_response text d1 = Ok r1 ->
        exists r2 m,
          Json.loads (clean_response text) = Ok (JObject m) /\
          _parse_response text d2 = Ok r2 /\
          files r2 = files r1 /\
          match Dict.get (lit "analysis_summary") m with
          | Some s => summary r1 = s /\ summary r2 = s
          | None =>
              summary r1
              = JString (lit "Generated application based on: " ++ d1)
              /\ summary r2
                 = JString (lit "Generated application based on: " ++ d2)
          end).
Proof.
  split.
  - intros e. unfold _parse_response, try_body.
    destruct (Json.loads (clean_response text)) as [data|e0]; simpl;
      [|exact (fun H => H)].
    destruct data as [| | | | | |m];
      try (rewrite !build_result_not_object by discriminate;
           exact (fun H => H)).
    destruct (files_of m) as [| | | | | |fs] eqn:Ef;
      try (rewrite !build_result_not_mapping
             by (intros fs'; rewrite Ef; discriminate);
           exact (fun H => H)).
    rewrite !(build_result_object _ _ _ Ef). discriminate.
  - intros r1 Hr1.
    apply parse_response_Ok_inv in Hr1 as (m & fs & Hl & Hf & ->).
    destruct (parse_response_object text d2 m fs Hl Hf) as [Hr2 _].
    eexists; exists m. split; [exact Hl|]. split; [exact Hr2|]. simpl.
    split; [reflexivity|]. unfold summary_of, default_summary.
    destruct (Dict.get (lit "analysis_summary") m); now split.
Qed.

(** X10: the keys of the result, in iteration order, are the received keys
    in the order received, followed by those of [App.jsx], [models.py],
    [main.py], [README.md] - in this order - that were not received; so the
    result has at most four entries more than the response. *)
Theorem parse_response_keys
        (text description : str) (m : Dict.dict json) (fs : list (str * json)) :
  Json.loads (clean_response text) = Ok (JObject m) ->
  files_of m = JObject fs ->
  exists r,
    _parse_response text description = Ok r /\
    Dict.keys (files r) = Dict.keys fs ++ missing_required fs /\
    (List.length (files r) <= List.length fs + 4)%nat.
Proof.
  intros Hl Hf.
  destruct (parse_response_object text description m fs Hl Hf) as [Hr Hcopy].
  pose proof (ResultFacts.normalized_keys_exact fs Hcopy) as Hkeys.
  eexists. split; [exact Hr|]. simpl. split; [exact Hkeys|].
  apply (f_equal (@List.length str)) in Hkeys.
  unfold Dict.keys in Hkeys. rewrite length_app, !length_map in Hkeys.
  rewrite Hkeys. apply Nat.add_le_mono_l.
  unfold missing_required.
  etransitivity; [apply filter_length_le | reflexivity].
Qed.

Lemma parse_response_keys_witness :
  exists r,
    _parse_response (dq "{'generated_files': {'main.py': 'x', 'a.css': 'y'}}")
                    (lit "demo") = Ok r /\
    Dict.keys (files r)
    = Dict.keys [(lit "main.py", JString (lit "x"));
                 (lit "a.css", JString (lit "y"))]
      ++ missing_required [(lit "main.py", JString (lit "x"));
                           (lit "a.css", JString (lit "y"))] /\
    (List.length (files r)
     <= List.length [(lit "main.py", JString (lit "x"));
                     (lit "a.css", JString (lit "y"))] + 4)%nat.
Proof.
  apply (parse_response_keys
           (dq "{'generated_files': {'main.py': 'x', 'a.css': 'y'}}")
           (lit "demo")
           [(lit "generated_files",
             JObject [(lit "main.py", JString (lit "x"));
                      (lit "a.css", JString (lit "y"))])]);
    vm_compute; reflexivity.
Defined.

(** ** The example catalogue *)

Lemma get_example_known (file_text : str -> str -> str) (example_id : str) :
  In example_id (ExampleService.list_examples file_text) ->
  exists r,
    ExampleService.get_example file_text example_id = Ok r
    /\ Dict.keys (files r)
       = [lit "models.py"; lit "main.py"; lit "App.jsx"; lit "README.md"]
    /\ normalized (files r) = files r.
Proof.
  intros [<-|[<-|[<-|[]]]]; eexists; (split; [reflexivity|]);
    (split; [reflexivity|]);
    (apply normalized_fixpoint;
     [reflexivity | intros k [<-|[<-|[<-|[<-|[]]]]]; reflexivity]).
Qed.

(** X11: [list_examples] and [get_example] agree: [get_example] returns a
    result exactly for the identifiers [list_examples] gives, and every
    result it returns holds the four files [models.py], [main.py],
    [App.jsx], [README.md] and nothing else, so that the steps of the
    normaliser would leave it as it is. *)
Theorem get_example_listed (file_text : str -> str -> str) (example_id : str) :
  (In example_id (ExampleService.list_examples file_text)
   <-> exists r, ExampleService.get_example file_text example_id = Ok r)
  /\ (forall r,
        ExampleService.get_example file_text example_id = Ok r ->
        Dict.keys (files r)
        = [lit "models.py"; lit "main.py"; lit "App.jsx"; lit "README.md"]
        /\ normalized (files r) = files r).
Proof.
  pose proof (get_example_known file_text example_id) as Hknown.
  assert (Hin : forall r,
             ExampleService.get_example file_text example_id = Ok r ->
             In example_id (ExampleService.list_examples file_text)).
  { intros r. unfold ExampleService.get_example.
    destruct (Dict.mem example_id (ExampleService.EXAMPLES file_text)) eqn:E;
      [|discriminate].
    intros _. now apply DictFacts.mem_In in E. }
  split.
  - split.
    + intros H. destruct (Hknown H) as (r & Hr & _). now exists r.
    + intros [r Hr]. now apply Hin with r.
  - intros r Hr. destruct (Hknown (Hin r Hr)) as (r' & Hr' & Hkeys & Hnorm).
    rewrite Hr in Hr'. injection Hr' as <-. now split.
Qed.

(** ** The routes *)

Section RouteProperties.

Variable prompt_head prompt_tail : str.
Variable generate_content : list Byte.byte -> str -> outcome str.
Variable MAX_UPLOAD_SIZE : Z.
Variable Response : Type.
Variable shape_response : AnalysisResult -> outcome Response.
Variable file_text : str -> str -> str.

Let analyze_image :=
  Routes.analyze_image prompt_head prompt_tail generate_content
                       MAX_UPLOAD_SIZE Response shape_response.
Let process_image :=
  Routes.process_image prompt_head prompt_tail generate_content.

(** [_parse_response] raises nothing but [ValueError]. *)
Lemma parse_response_raises_ValueError (text description : str) (e : exn) :
  _parse_response text description = Raise e -> exists msg, e = ValueError msg.
Proof.
  unfold _parse_response.
  destruct (try_body text description) as [r|[| | |msg]];
    try discriminate; intros [= <-]; eauto.
Qed.

(** X12: an upload that fails the checks of [analyze_image] is answered
    with status 500, not 400: the [HTTPException] with status 400 that the
    check raises (or the [AttributeError] of a missing content type) is
    raised inside the [try] statement and is caught by its
    [except Exception] clause.  The generation service is not called. *)
Theorem analyze_image_rejected_upload
        (content_type : option str) (image_data : list Byte.byte)
        (description : str) :
  (content_type = None ->
   analyze_image content_type image_data description
   = Throw (HTTPException 500
              (Failed_to_process_image (Builtin AttributeError))))
  /\ (forall ct,
         content_type = Some ct -> startswith (lit "image/") ct = false ->
         analyze_image content_type image_data description
         = Throw (HTTPException 500
                    (Failed_to_process_image
                       (HTTPException 400 File_must_be_an_image))))
  /\ (forall ct,
         content_type = Some ct -> startswith (lit "image/") ct = true ->
         (Z.of_nat (List.length image_data) > MAX_UPLOAD_SIZE)%Z ->
         analyze_image content_type image_data description
         = Throw (HTTPException 500
                    (Failed_to_process_image
                       (HTTPException 400
                          (Image_size_exceeds_maximum MAX_UPLOAD_SIZE))))).
Proof.
  unfold analyze_image, Routes.analyze_image, Routes.analyze_image_body.
  split; [|split].
  - intros ->. reflexivity.
  - intros ct -> Hct. simpl. now rewrite Hct.
  - intros ct -> Hct Hsize. simpl. rewrite Hct. simpl.
    apply Z.gtb_gt in Hsize. now rewrite Hsize.
Qed.

(** X13: for an accepted upload, the failure of the generation call is
    passed on by [process_image] as it is, and a response text that
    [_parse_response] refuses makes [process_image] raise that
    [ValueError]; [analyze_image] answers the [ValueError] with status 400
    and its text, and any failure that is not a [ValueError] with status
    500. *)
Theorem analyze_image_failures
        (ct : str) (image_data : list Byte.byte) (description : str) :
  startswith (lit "image/") ct = true ->
  (Z.of_nat (List.length image_data) <= MAX_UPLOAD_SIZE)%Z ->
  (forall e,
      generate_content image_data (prompt_head ++ description ++ prompt_tail)
      = Throw e ->
      process_image image_data description = Throw e
      /\ analyze_image (Some ct) image_data description
         = if is_ValueError e
           then Throw (HTTPException 400 (Text_of e))
           else Throw (HTTPException 500 (Failed_to_process_image e)))
  /\ (forall text e,
         generate_content image_data (prompt_head ++ description ++ prompt_tail)
         = Return text ->
         _parse_response text description = Raise e ->
         process_image image_data description = Throw (Builtin e)
         /\ analyze_image (Some ct) image_data description
            = Throw (HTTPException 400 (Text_of (Builtin e)))).
Proof.
  intros Hct Hsize.
  assert (Hle : (Z.of_nat (List.length image_data) >? MAX_UPLOAD_SIZE)%Z = false).
  { rewrite Z.gtb_ltb. apply Z.ltb_ge. exact Hsize. }
  unfold analyze_image, process_image, Routes.analyze_image,
    Routes.analyze_image_body, Routes.process_image, Routes._build_prompt.
  simpl. rewrite Hct, Hle. simpl. split.
  - intros e ->. simpl. split; reflexivity.
  - intros text e -> Hparse. simpl. rewrite Hparse. simpl.
    split; [reflexivity|].
    destruct (parse_response_raises_ValueError _ _ _ Hparse) as [msg ->].
    reflexivity.
Qed.

(** X14: what [analyze_image] can give.  A response is returned only for
    an upload with an image content type and a size within the limit, when
    the generation call returned a text, [_parse_response] made a result of
    it - which holds the four required files - and the shaping of that
    result succeeded.  Otherwise an [HTTPException] with status 400 or 500
    is raised, and nothing else. *)
Theorem analyze_image_outcomes
        (content_type : option str) (image_data : list Byte.byte)
        (description : str) :
  (forall response,
      analyze_image content_type image_data description = Return response ->
      exists ct text r,
        content_type = Some ct /\
        startswith (lit "image/") ct = true /\
        (Z.of_nat (List.length image_data) <= MAX_UPLOAD_SIZE)%Z /\
        generate_content image_data (prompt_head ++ description ++ prompt_tail)
        = Return text /\
        _parse_response text description = Ok r /\
        (forall k, In k required_files -> Dict.mem k (files r) = true) /\
        shape_response r = Return response)
  /\ (forall e,
         analyze_image content_type image_data description = Throw e ->
         exists detail,
           e = HTTPException 400 detail \/ e = HTTPException 500 detail).
Proof.
  unfold analyze_image, Routes.analyze_image, Routes.analyze_image_body,
    Routes.process_image, Routes._build_prompt.
  split.
  - intros response H.
    destruct content_type as [ct|]; [|discriminate]. simpl in H.
    destruct (startswith (lit "image/") ct) eqn:Hct; [|discriminate].
    simpl in H.
    destruct (Z.of_nat (List.length image_data) >? MAX_UPLOAD_SIZE)%Z eqn:Hsize;
      [discriminate|].
    destruct (generate_content image_data
                (prompt_head ++ description ++ prompt_tail))
      as [text|e] eqn:Hgen; simpl in H;
      [|destruct (is_ValueError e); discriminate].
    destruct (_parse_response text description) as [r|e] eqn:Hparse;
      simpl in H; [|destruct e; discriminate].
    destruct (shape_response r) as [resp|e] eqn:Hshape;
      [|destruct (is_ValueError e); discriminate].
    injection H as <-.
    exists ct, text, r. repeat split; try assumption.
    + rewrite Z.gtb_ltb in Hsize. apply Z.ltb_ge in Hsize. exact Hsize.
    + intros k Hk.
      apply parse_response_Ok_inv in Hparse as (m & fs & _ & _ & ->).
      now apply normalized_required.
  - intros e H.
    destruct (outcome_bind _ _) as [resp|e0]; [discriminate|].
    destruct (is_ValueError e0); injection H as <-; eauto.
Qed.

(** X15: the route [get_example] answers an identifier that is not in the
    catalogue with status 404 and the text of the [ValueError] of
    [ExampleService.get_example]; for an identifier of the catalogue it
    gives the shaping of the catalogue entry. *)
Theorem get_example_route (example_id : str) :
  (~ In example_id (Routes.list_examples file_text) ->
   Routes.get_example Response shape_response file_text example_id
   = Throw (HTTPException 404
              (Text_of (Builtin (ValueError Example_not_found)))))
  /\ (In example_id (Routes.list_examples file_text) ->
      exists r,
        ExampleService.get_example file_text example_id = Ok r /\
        Routes.get_example Response shape_response file_text example_id
        = match shape_response r with
          | Return response => Return response
          | Throw e =>
              if is_ValueError e
              then Throw (HTTPException 404 (Text_of e))
              else Throw e
          end).
Proof.
  unfold Routes.get_example, Routes.list_examples. split.
  - intros Hid.
    assert (Hget : ExampleService.get_example file_text example_id
                   = Raise (ValueError Example_not_found)).
    { unfold ExampleService.get_example.
      assert (Dict.mem example_id (ExampleService.EXAMPLES file_text) = false)
        as ->; [|reflexivity].
      apply DictFacts.mem_false. exact Hid. }
    now rewrite Hget.
  - intros Hid.
    destruct (get_example_known file_text example_id Hid) as (r & Hr & _).
    exists r. split; [exact Hr|]. now rewrite Hr.
Qed.

End RouteProperties.

Lemma analyze_image_failures_witness :
  (forall e,
      (fun (_ : list Byte.byte) (_ : str) => Return (lit "not json"))
        [] (lit "Describe: " ++ lit "demo" ++ []) = Throw e ->
      Routes.process_image (lit "Describe: ") []
        (fun _ _ => Return (lit "not json")) [] (lit "demo") = Throw e
      /\ Routes.analyze_image (lit "Describe: ") []
           (fun _ _ => Return (lit "not json")) 10%Z AnalysisResult
           (fun r => Return r) (Some (lit "image/png")) [] (lit "demo")
         = if is_ValueError e
           then Throw (HTTPException 400 (Text_of e))
           else Throw (HTTPException 500 (Failed_to_process_image e)))
  /\ (forall text e,
         (fun (_ : list Byte.byte) (_ : str) => Return (lit "not json"))
           [] (lit "Describe: " ++ lit "demo" ++ []) = Return text ->
         _parse_response text (lit "demo") = Raise e ->
         Routes.process_image (lit "Describe: ") []
           (fun _ _ => Return (lit "not json")) [] (lit "demo")
         = Throw (Builtin e)
         /\ Routes.analyze_image (lit "Describe: ") []
              (fun _ _ => Return (lit "not json")) 10%Z AnalysisResult
              (fun r => Return r) (Some (lit "image/png")) [] (lit "demo")
            = Throw (HTTPException 400 (Text_of (Builtin e)))).
Proof.
  apply (analyze_image_failures (lit "Describe: ") []
           (fun _ _ => Return (lit "not json")) 10%Z AnalysisResult
           (fun r => Return r) (lit "image/png") [] (lit "demo")).
  - reflexivity.
  - simpl. lia.
Defined.
